(** * gobuster: the page worker (worker/worker.go)

  A shallow embedding of package [worker]: the mangle engine, the
  fetch primitive [TryURL], the fan-out of [HandleURL] and
  [TryMangleURL], and the properties the specification states about
  them.

  Conventions.
  - Go strings are byte strings: [string] of the Standard Library.
  - Go [int], [int64] and [time.Duration] values are [Z]; none of the
    arithmetic below can leave the 64-bit range (indices into a string).
  - A nil-able pointer ([*http.Response], [*http.Request], [error],
    the [PageWorker] interface value) is an [option].
  - What the worker does to its collaborators (transport, work source,
    results channel, page worker, clock) is recorded as a list of
    [Event]s, in program order.
  - A run-time panic (nil dereference) is an explicit outcome.
  - [logging.Logf] calls have no effect on the worker and are left out.
  - [Run], [RunInBackground], [Stop] and [StartWorkers] (goroutines and
    the select over the stop and source channels) lie outside this
    sequential embedding, which starts where a URL has been dequeued. *)

From Stdlib Require Import String Ascii List ZArith Lia Bool.
Import ListNotations.

Local Open Scope string_scope.
Local Open Scope Z_scope.
Local Open Scope list_scope.

(* ------------------------------------------------------------------ *)
(** ** Byte strings: the pieces of [strings] and [fmt] the worker uses *)
(* ------------------------------------------------------------------ *)

Module strings.

(** [len(s)] *)
Definition len (s : string) : Z := Z.of_nat (String.length s).

(** [s[i:j]] for [0 <= i <= j <= len(s)]. *)
Definition slice (s : string) (i j : Z) : string :=
  substring (Z.to_nat i) (Z.to_nat (j - i)) s.

(** [strings.LastIndex(s, sep)] for a one-byte separator, which Go
    answers with a backwards byte scan: the index of the last
    occurrence of [c] in [s], or [-1]. *)
Fixpoint LastIndexByte (s : string) (c : ascii) : Z :=
  match s with
  | EmptyString => -1
  | String a rest =>
      let r := LastIndexByte rest c in
      if 0 <=? r then r + 1
      else if Ascii.eqb a c then 0 else -1
  end.

(** [strings.HasSuffix(s, "c")] for a one-byte suffix. *)
Fixpoint HasSuffixByte (s : string) (c : ascii) : bool :=
  match s with
  | EmptyString => false
  | String a EmptyString => Ascii.eqb a c
  | String _ rest => HasSuffixByte rest c
  end.

(** [c] occurs in [s]. *)
Fixpoint ContainsByte (s : string) (c : ascii) : bool :=
  match s with
  | EmptyString => false
  | String a rest => Ascii.eqb a c || ContainsByte rest c
  end.

End strings.

Module fmt.

(** What [Sprintf] appends when operands are left over. *)
Definition extra (a : list string) : string :=
  match a with
  | [] => ""
  | _ => "%!(EXTRA " ++ String.concat ", " (map (fun x => "string=" ++ x) a) ++ ")"
  end%string.

(** [fmt.Sprintf(format, a...)] with string operands, for formats whose
    directives are [%s] and [%%] (the only ones in [mangleRules]): a
    [%s] is replaced by the next operand, written byte for byte, or by
    [%!s(MISSING)] when there is none.  Any other byte is copied. *)
Fixpoint Sprintf (format : string) (a : list string) : string :=
  match format with
  | EmptyString => extra a
  | String c rest =>
      if Ascii.eqb c "%" then
        match rest with
        | String v rest' =>
            if Ascii.eqb v "s" then
              match a with
              | x :: a' => x ++ Sprintf rest' a'
              | [] => "%!s(MISSING)" ++ Sprintf rest' []
              end
            else if Ascii.eqb v "%" then String "%" (Sprintf rest' a)
            else String c (Sprintf rest a)
        | EmptyString => String c (Sprintf rest a)
        end
      else String c (Sprintf rest a)
  end%string.

End fmt.

(* ------------------------------------------------------------------ *)
(** ** The mangle engine *)
(* ------------------------------------------------------------------ *)

Definition mangleRules : list string :=
[ ".%s.swp"  (* VIM Swap File *)
; "%s~"      (* Backup file *)
; "%s.bak"   (* Backup file *)
; "%s.orig"  (* Backup file *)
].

(** [func Mangle(basename string) []string]: slot [i] of the result is
  rule [i] applied to the basename. *)
Definition Mangle (basename : string) : list string :=
map (fun rule => fmt.Sprintf rule [basename]) mangleRules.

(* ------------------------------------------------------------------ *)
(** ** Data model: the types of the packages the worker imports *)
(* ------------------------------------------------------------------ *)

(** Go's [error] values, identified by their message. *)
Definition error := string.

Module url.

(** [net/url.URL]; the worker reads and rewrites [Path] only. *)
Record URL : Type := mkURL
  { Scheme : string
  ; Host : string
  ; Path : string
  ; RawQuery : string }.

(** [u := *task; u.Path = p]: a copy that differs in its path. *)
Definition withPath (u : URL) (p : string) : URL :=
  {| Scheme := Scheme u; Host := Host u; Path := p; RawQuery := RawQuery u |}.

End url.

Module http.

(** [io.ReadCloser]: a response body is a stream; the model keeps its
    identity. *)
Definition ReadCloser := nat.

(** [net/http.Response], the fields the worker and a page worker read. *)
Record Response : Type := mkResponse
  { StatusCode : Z
  ; ContentLength : Z
  ; Header : list (string * string)
  ; Body : ReadCloser }.

(** [net/http.Request]: the worker reads the [URL] of a pending redirect. *)
Record Request : Type := mkRequest
  { URL : url.URL }.

End http.

Module results.

(** [results.Result], as the worker fills it.  A field the composite
    literal leaves out has Go's zero value: [0] for [Code] and [Length],
    nil for [Error] and [Redir]. *)
Record Result : Type := mkResult
  { URL : url.URL
  ; Code : Z
  ; Error : option error
  ; Redir : option url.URL
  ; Length : Z }.

End results.

Module ss.

(** [settings.ScanSettings], the fields package [worker] reads. *)
Record ScanSettings : Type := mkScanSettings
  { Workers : Z
  ; Extensions : list string
  ; Mangle : bool
  ; SpiderCodes : list Z
  ; SleepTime : Z
  ; ParseHTML : bool }.

End ss.

Module client.

(** What one [RequestURL] call hands back to the worker: the requests
    the transport passed to the installed [CheckRedirect] handler while
    the call ran (in call order), and the returned pair. *)
Record Fetch : Type := mkFetch
  { checked : list http.Request
  ; resp : option http.Response
  ; err : option error }.

(** The [client.Client] interface.  A transport has state of its own
    (connections, cookies), so a request also yields its next state.
    [SetCheckRedirect] is accounted for by [checked]. *)
Class Client (C : Type) : Type :=
  RequestURL : C -> url.URL -> C * Fetch.

End client.

Module util.

(** Modelled from the spec: [util.URLIsDir] is not part of the sources
    at hand; the specification calls a URL directory-style when its
    "path ends in [/]". *)
Definition URLIsDir (u : url.URL) : bool :=
  strings.HasSuffixByte (url.Path u) "/".

(** [util.URLHasExtension] is not part of the sources at hand either and
    the specification does not say how an extension is recognised: the
    test is a parameter of the development. *)
Class HasExtension : Type :=
  URLHasExtension : url.URL -> bool.

End util.

(** The [PageWorker] interface.  [Eligible] is a test on the response;
    [Handle] is an effect and appears as an event. *)
Class PageWorker (P : Type) : Type :=
  Eligible : P -> http.Response -> bool.

(** The [Worker] struct.  The channels and callbacks ([src], [adder],
    [done], [rchan], [stop]) are the worker's outside world and show up
    as events; the fields with state of their own remain. *)
Record Worker (C P : Type) : Type := mkWorker
  { client : C                       (* client for connections *)
  ; settings : ss.ScanSettings        (* Settings *)
  ; pageWorker : option P             (* HTML worker to parse page *)
  ; redir : option http.Request }.    (* Request for redirection *)

Arguments mkWorker {C P}.
Arguments client {C P}.
Arguments settings {C P}.
Arguments pageWorker {C P}.
Arguments redir {C P}.

(** The calls the worker makes on its collaborators. *)
Inductive Event : Type :=
| EvRequest (u : url.URL)                        (* w.client.RequestURL(u) *)
| EvResult (r : results.Result)                  (* w.rchan <- r *)
| EvAdd (u : url.URL)                            (* w.adder(u) *)
| EvDone (n : Z)                                 (* w.done(n) *)
| EvHandle (u : url.URL) (b : http.ReadCloser)   (* w.pageWorker.Handle(u, b) *)
| EvClose (b : http.ReadCloser)                  (* b.Close() *)
| EvSleep (d : Z).                               (* time.Sleep(d) *)

(* ------------------------------------------------------------------ *)
(** ** A monad for the worker's methods: state, trace and panics *)
(* ------------------------------------------------------------------ *)

Inductive Outcome (A : Type) : Type :=
| Returned (a : A)
| Panicked (msg : string).

Arguments Returned {A}.
Arguments Panicked {A}.

(** A method with receiver state [W]: its outcome, the receiver
    afterwards and the events it caused. *)
Definition M (W A : Type) : Type := W -> Outcome A * W * list Event.

Definition ret {W A : Type} (a : A) : M W A :=
  fun w => (Returned a, w, []).

Definition bind {W A B : Type} (m : M W A) (k : A -> M W B) : M W B :=
  fun w =>
    match m w with
    | (Returned a, w1, ev1) =>
        match k a w1 with
        | (o, w2, ev2) => (o, w2, ev1 ++ ev2)
        end
    | (Panicked msg, w1, ev1) => (Panicked msg, w1, ev1)
    end.

Definition get {W : Type} : M W W :=
  fun w => (Returned w, w, []).

Definition put {W : Type} (w' : W) : M W unit :=
  fun _ => (Returned tt, w', []).

Definition emit {W : Type} (e : Event) : M W unit :=
  fun w => (Returned tt, w, [e]).

Definition panic {W A : Type} (msg : string) : M W A :=
  fun w => (Panicked msg, w, []).

Declare Scope worker_scope.
Delimit Scope worker_scope with worker.

Notation "x <- c1 ;; c2" := (bind c1 (fun x => c2))
  (at level 61, c1 at next level, right associativity) : worker_scope.
Notation "c1 ;; c2" := (bind c1 (fun _ => c2))
  (at level 61, right associativity) : worker_scope.

Local Open Scope worker_scope.

(** [if b { m }] *)
Definition when {W : Type} (b : bool) (m : M W unit) : M W unit :=
  if b then m else ret tt.

(** [for _, x := range l { body(x) }] *)
Fixpoint forRange {W A : Type} (l : list A) (body : A -> M W unit) : M W unit :=
  match l with
  | [] => ret tt
  | x :: l' => body x ;; forRange l' body
  end.

(** The outcome, final receiver and events of a run. *)
Definition outcome {W A : Type} (r : Outcome A * W * list Event) : Outcome A :=
  fst (fst r).

Definition final {W A : Type} (r : Outcome A * W * list Event) : W :=
  snd (fst r).

Definition events {W A : Type} (r : Outcome A * W * list Event) : list Event :=
  snd r.

(* ------------------------------------------------------------------ *)
(** ** The worker *)
(* ------------------------------------------------------------------ *)

Section WorkerMethods.

Context {C P : Type} {transport : client.Client C} {pw : PageWorker P}
        {ext : util.HasExtension}.

(** [w.redir = r] *)
Definition setRedir (r : option http.Request) (w : Worker C P) : Worker C P :=
  {| client := client w; settings := settings w;
     pageWorker := pageWorker w; redir := r |}.

(** The transport moved on to state [c]. *)
Definition setClient (c : C) (w : Worker C P) : Worker C P :=
  {| client := c; settings := settings w;
     pageWorker := pageWorker w; redir := redir w |}.

(** The redirect handler [NewWorker] installs:
    [w.redir = req; return fmt.Errorf("Stop redirect.")]. *)
Definition redirHandler (req : http.Request) (w : Worker C P) : error * Worker C P :=
  (fmt.Sprintf "Stop redirect." [], setRedir (Some req) w).

(** [NewWorker]: a worker on the transport the factory handed out, no
    page worker, no pending redirect. *)
Definition NewWorker (s : ss.ScanSettings) (c : C) : Worker C P :=
  {| client := c; settings := s; pageWorker := None; redir := None |}.

(** [SetPageWorker] *)
Definition SetPageWorker (p : P) (w : Worker C P) : Worker C P :=
  {| client := client w; settings := settings w;
     pageWorker := Some p; redir := redir w |}.

(** [w.client.RequestURL(task)]: the transport runs, calling the
    redirect handler on each request it wants to follow. *)
Definition callRequestURL (task : url.URL) : M (Worker C P) client.Fetch :=
  fun w =>
    let (c, f) := client.RequestURL (client w) task in
    let w' := fold_left (fun w req => snd (redirHandler req w))
                        (client.checked f) (setClient c w) in
    (Returned f, w', [EvRequest task]).

(** Should we keep spidering from this code? *)
Fixpoint KeepSpideringIn (codes : list Z) (code : Z) : bool :=
  match codes with
  | [] => false
  | v :: rest => if code =? v then true else KeepSpideringIn rest code
  end.

Definition KeepSpidering (w : Worker C P) (code : Z) : bool :=
  KeepSpideringIn (ss.SpiderCodes (settings w)) code.

(** [TryURL].  The second component of what a branch yields is the call
    it deferred, run when the function returns. *)
Definition TryURL (task : url.URL) : M (Worker C P) bool :=
  w0 <- get ;;
  put (setRedir None w0) ;;
  f <- callRequestURL task ;;
  w <- get ;;
  branch <-
    match client.err f, redir w with
    | Some e, None =>
        let result :=
          {| results.URL := task;
             results.Error := Some e;
             results.Code := match client.resp f with
                             | Some r => http.StatusCode r
                             | None => 0
                             end;
             results.Redir := None;
             results.Length := 0 |} in
        emit (EvResult result) ;;
        ret (false, [])
    | _, _ =>
        match client.resp f with
        | None => panic "invalid memory address or nil pointer dereference"
        | Some r =>
            (* defer resp.Body.Close() *)
            when (util.URLIsDir task && KeepSpidering w (http.StatusCode r))
                 (emit (EvAdd task)) ;;
            match redir w with
            | Some q => emit (EvAdd (http.URL q))
            | None => ret tt
            end ;;
            match pageWorker w with
            | Some p =>
                when (Eligible p r) (emit (EvHandle task (http.Body r)))
            | None => ret tt
            end ;;
            emit (EvResult
                    {| results.URL := task;
                       results.Code := http.StatusCode r;
                       results.Error := None;
                       results.Redir := option_map http.URL (redir w);
                       results.Length := http.ContentLength r |}) ;;
            ret (KeepSpidering w (http.StatusCode r), [EvClose (http.Body r)])
        end
    end ;;
  when (negb (ss.SleepTime (settings w) =? 0))
       (emit (EvSleep (ss.SleepTime (settings w)))) ;;
  forRange (snd branch) emit ;;
  ret (fst branch).

(** [TryMangleURL] *)
Definition TryMangleURL (task : url.URL) : M (Worker C P) unit :=
  w <- get ;;
  if negb (ss.Mangle (settings w)) then ret tt
  else
    let clone := task in
    let spos := strings.LastIndexByte (url.Path clone) "/" in
    if spos =? -1 then ret tt
    else
      let dirname := strings.slice (url.Path clone) 0 spos in
      let basename :=
        strings.slice (url.Path clone) (spos + 1) (strings.len (url.Path clone)) in
      forRange (Mangle basename)
        (fun newname =>
           let clone := url.withPath clone (dirname ++ "/" ++ newname)%string in
           _ <- TryURL clone ;; ret tt).

(** [HandleURL] *)
Definition HandleURL (task : url.URL) : M (Worker C P) unit :=
  withMangle <- TryURL task ;;
  when (negb (util.URLIsDir task))
    (when withMangle (TryMangleURL task) ;;
     w <- get ;;
     when (negb (util.URLHasExtension task))
       (forRange (ss.Extensions (settings w))
          (fun ext =>
             let task := url.withPath task (url.Path task ++ "." ++ ext)%string in
             b <- TryURL task ;;
             when b (TryMangleURL task)))) ;;
  (* Mark as done *)
  emit (EvDone 1).

End WorkerMethods.

(* ------------------------------------------------------------------ *)
(** ** Reading a trace *)
(* ------------------------------------------------------------------ *)

(** The URLs fetched, in order: one per fetch attempt. *)
Definition requests (ev : list Event) : list url.URL :=
  flat_map (fun e => match e with EvRequest u => [u] | _ => [] end) ev.

(** The Result Records sent to the results channel. *)
Definition emitted (ev : list Event) : list results.Result :=
  flat_map (fun e => match e with EvResult r => [r] | _ => [] end) ev.

(** The URLs handed to [adder]. *)
Definition adds (ev : list Event) : list url.URL :=
  flat_map (fun e => match e with EvAdd u => [u] | _ => [] end) ev.

(** The arguments of the [done] calls. *)
Definition dones (ev : list Event) : list Z :=
  flat_map (fun e => match e with EvDone n => [n] | _ => [] end) ev.

(** The bodies closed. *)
Definition closes (ev : list Event) : list http.ReadCloser :=
  flat_map (fun e => match e with EvClose b => [b] | _ => [] end) ev.

(** [l[len(l)-1]], when there is one. *)
Fixpoint lastOf {A : Type} (l : list A) : option A :=
  match l with
  | [] => None
  | a :: l' => match lastOf l' with Some x => Some x | None => Some a end
  end.

(** A computation that never calls [done]. *)
Definition quiet {W A : Type} (m : M W A) : Prop :=
  forall w, dones (events (m w)) = [].

(* ------------------------------------------------------------------ *)
(** ** The transport's side of the contract *)
(* ------------------------------------------------------------------ *)

(** A fetch is a real transport failure when it reports an error and
    the redirect handler was not consulted. *)
Definition realFailure (f : client.Fetch) : bool :=
  match client.err f, client.checked f with
  | Some _, [] => true
  | _, _ => false
  end.

(** What [TryURL] relies on, and what the specification's Fetch Outcome
    says ("either a transport-level error (with optional partial status
    code) or a successful response carrying status code, content length,
    and an optional redirect target"): a call that is not a real failure
    (it succeeded, or [net/http] stopped it at a redirect) comes with a
    response. *)
Definition answered (f : client.Fetch) : bool :=
  match client.resp f with
  | Some _ => true
  | None => realFailure f
  end.

(** The transport keeps that promise in every state, for every URL. *)
Definition TransportAnswers (C : Type) {transport : client.Client C} : Prop :=
  forall (c : C) (u : url.URL), answered (snd (client.RequestURL c u)) = true.

(* ------------------------------------------------------------------ *)
(** ** What the specification's words mean on a URL *)
(* ------------------------------------------------------------------ *)

(** The extension variant of [task] for [ext]: path plus "." plus [ext]. *)
Definition extVariant (task : url.URL) (ext : string) : url.URL :=
  url.withPath task (url.Path task ++ "." ++ ext)%string.

(** The mangle variants of a URL whose path is [dirname/basename]: the
    directory kept, the basename replaced by each candidate. *)
Definition mangleVariants (task : url.URL) (dirname basename : string)
  : list url.URL :=
  map (fun newname => url.withPath task (dirname ++ "/" ++ newname)%string)
      (Mangle basename).

(** A Result Record after which [TryURL] answered true: no error, and a
    spiderable code. *)
Definition continues (codes : list Z) (r : results.Result) : bool :=
  match results.Error r with
  | Some _ => false
  | None => existsb (Z.eqb (results.Code r)) codes
  end.

(** "Splits the path into directory and basename at the last path
    separator; if no separator exists, no-op": the split as the
    specification words it, next to the index arithmetic of the source. *)
Fixpoint splitLastSlash (p : string) : option (string * string) :=
  match p with
  | EmptyString => None
  | String a rest =>
      match splitLastSlash rest with
      | Some (d, b) => Some (String a d, b)
      | None => if Ascii.eqb a "/" then Some (EmptyString, rest) else None
      end
  end.

(** The mangle attempts a URL is due under settings [s]. *)
Definition mangleTargets (s : ss.ScanSettings) (u : url.URL) : list url.URL :=
  if ss.Mangle s then
    match splitLastSlash (url.Path u) with
    | Some (d, b) => mangleVariants u d b
    | None => []
    end
  else [].

(** The Result Records of one attempt on [u] together with the mangle
    attempts it triggered: the record of [u] itself, followed by one
    record per mangle target exactly when that record [continues]. *)
Inductive attemptBlock (s : ss.ScanSettings) (u : url.URL)
  : list results.Result -> Prop :=
| block_plain (r : results.Result) :
    results.URL r = u ->
    continues (ss.SpiderCodes s) r = false ->
    attemptBlock s u [r]
| block_mangled (r : results.Result) (ms : list results.Result) :
    results.URL r = u ->
    continues (ss.SpiderCodes s) r = true ->
    map results.URL ms = mangleTargets s u ->
    attemptBlock s u (r :: ms).

Section FanoutWords.

Context {C P : Type} {transport : client.Client C} {pw : PageWorker P}
        {ext : util.HasExtension}.

(** An attempt with the mangle attempts it triggers. *)
Definition attemptWithMangle (u : url.URL) : M (Worker C P) unit :=
  bind (TryURL u) (fun b => when b (TryMangleURL u)).

(** The attempts [HandleURL] makes for the configured extensions. *)
Definition extensionAttempts (task : url.URL) : M (Worker C P) unit :=
  fun w =>
    if util.URLHasExtension task then ret tt w
    else forRange (ss.Extensions (settings w))
                  (fun e => attemptWithMangle (extVariant task e)) w.

End FanoutWords.

(* ------------------------------------------------------------------ *)
(** ** The pieces of one attempt's trace *)
(* ------------------------------------------------------------------ *)

Section AttemptTrace.

Context {C P : Type} {pw : PageWorker P}.

(** The worker after a fetch that moved the transport to [c]. *)
Definition after (w : Worker C P) (c : C) (f : client.Fetch) : Worker C P :=
  setRedir (lastOf (client.checked f)) (setClient c w).

Definition sleepEvents (w : Worker C P) : list Event :=
  if ss.SleepTime (settings w) =? 0 then []
  else [EvSleep (ss.SleepTime (settings w))].

Definition failureResult (task : url.URL) (f : client.Fetch) (e : error)
  : results.Result :=
  {| results.URL := task;
     results.Code := match client.resp f with
                     | Some r => http.StatusCode r
                     | None => 0
                     end;
     results.Error := Some e;
     results.Redir := None;
     results.Length := 0 |}.

Definition successResult (task : url.URL) (f : client.Fetch) (r : http.Response)
  : results.Result :=
  {| results.URL := task;
     results.Code := http.StatusCode r;
     results.Error := None;
     results.Redir := option_map http.URL (lastOf (client.checked f));
     results.Length := http.ContentLength r |}.

Definition spiderAdds (w : Worker C P) (task : url.URL) (r : http.Response)
  : list Event :=
  if util.URLIsDir task && KeepSpidering w (http.StatusCode r)
  then [EvAdd task] else [].

Definition redirectAdds (f : client.Fetch) : list Event :=
  match lastOf (client.checked f) with
  | Some q => [EvAdd (http.URL q)]
  | None => []
  end.

Definition pageEvents (w : Worker C P) (task : url.URL) (r : http.Response)
  : list Event :=
  match pageWorker w with
  | Some p => if Eligible p r then [EvHandle task (http.Body r)] else []
  | None => []
  end.

End AttemptTrace.

Section AttemptCases.

Context {C P : Type} {transport : client.Client C} {pw : PageWorker P}.

(** The three ways a call of [TryURL] can go. *)
Inductive TryURL_case (w : Worker C P) (task : url.URL)
  : Outcome bool * Worker C P * list Event -> Prop :=
| case_failure c f e :
    client.RequestURL (client w) task = (c, f) ->
    client.err f = Some e -> client.checked f = [] ->
    TryURL_case w task
      (Returned false, after w c f,
       [EvRequest task; EvResult (failureResult task f e)] ++ sleepEvents w)
| case_success c f r :
    client.RequestURL (client w) task = (c, f) ->
    realFailure f = false -> client.resp f = Some r ->
    TryURL_case w task
      (Returned (KeepSpidering w (http.StatusCode r)), after w c f,
       [EvRequest task] ++ spiderAdds w task r ++ redirectAdds f
         ++ pageEvents w task r ++ [EvResult (successResult task f r)]
         ++ sleepEvents w ++ [EvClose (http.Body r)])
| case_nil c f msg :
    client.RequestURL (client w) task = (c, f) ->
    realFailure f = false -> client.resp f = None ->
    TryURL_case w task (Panicked msg, after w c f, [EvRequest task]).

End AttemptCases.

(* ------------------------------------------------------------------ *)
(** ** Scripted transports, for concrete runs *)
(* ------------------------------------------------------------------ *)

(** How a scripted site answers a path. *)
Inductive Page : Type :=
| Served (r : http.Response)                       (* a response, no error *)
| Moved (r : http.Response) (to : http.Request)    (* a redirect, stopped by the handler *)
| Failed (r : option http.Response) (e : error).   (* a transport error *)

(** What [net/http] hands back in each case. *)
Definition fetchOf (p : Page) : client.Fetch :=
  match p with
  | Served r =>
      {| client.checked := []; client.resp := Some r; client.err := None |}
  | Moved r to =>
      {| client.checked := [to]; client.resp := Some r;
         client.err := Some "Get: Stop redirect." |}
  | Failed r e =>
      {| client.checked := []; client.resp := r; client.err := Some e |}
  end.

Definition response (code : Z) (body : nat) : http.Response :=
  {| http.StatusCode := code; http.ContentLength := 120;
     http.Header := [("Content-Type", "text/html")]; http.Body := body |}.

(** A site answers by path and counts the requests it served; a path it
    does not list is a 404. *)
Record Site : Type := mkSite
  { pages : list (string * Page)
  ; served : nat }.

Fixpoint lookupPage (p : string) (l : list (string * Page)) : Page :=
  match l with
  | [] => Served (response 404 0)
  | (q, f) :: l' => if String.eqb p q then f else lookupPage p l'
  end.

Definition Site_Client : client.Client Site :=
  fun s u => ({| pages := pages s; served := S (served s) |},
              fetchOf (lookupPage (url.Path u) (pages s))).

(** A transport that breaks the promise of [answered]: it consults the
    redirect handler and then returns no response. *)
Inductive Rogue : Type := rogue.

Definition at_ (p : string) : url.URL :=
  {| url.Scheme := "http"; url.Host := "x"; url.Path := p; url.RawQuery := "" |}.

Definition Rogue_Client : client.Client Rogue :=
  fun c _ => (c, {| client.checked := [ {| http.URL := at_ "/new" |} ];
                    client.resp := None;
                    client.err := Some "Stop redirect." |}).

(** A page worker that takes every [text/html] response. *)
Inductive HTMLWorker : Type := NewHTMLWorker.

Definition HTMLWorker_PageWorker : PageWorker HTMLWorker :=
  fun _ r => existsb (fun h => String.eqb (fst h) "Content-Type"
                               && String.eqb (snd h) "text/html")
                     (http.Header r).

(** One way to recognise an extension: a "." after the last "/". *)
Definition dotAfterSlash : util.HasExtension :=
  fun u => strings.LastIndexByte (url.Path u) "/"
           <? strings.LastIndexByte (url.Path u) ".".

Definition demoSite : Site :=
  {| pages := [ ("/admin", Served (response 200 1));
                ("/dir/", Served (response 200 2));
                ("/old", Moved (response 301 3) {| http.URL := at_ "/new" |});
                ("/down", Failed None "dial tcp: connection refused");
                ("/broken", Failed (Some (response 502 7)) "unexpected EOF");
                ("/doc.txt", Served (response 200 4)) ];
     served := 0 |}.

Definition demoSettings : ss.ScanSettings :=
  {| ss.Workers := 4; ss.Extensions := ["php"]; ss.Mangle := true;
     ss.SpiderCodes := [200]; ss.SleepTime := 0; ss.ParseHTML := false |}.

Definition demoWorker : Worker Site HTMLWorker :=
  NewWorker demoSettings demoSite.

(** A worker whose scratch slot still holds the redirect of an earlier
    attempt. *)
Definition staleWorker : Worker Site HTMLWorker :=
  setRedir (Some {| http.URL := at_ "/stale" |}) demoWorker.

(** A worker with mangling switched off. *)
Definition plainWorker : Worker Site HTMLWorker :=
  NewWorker {| ss.Workers := 1; ss.Extensions := []; ss.Mangle := false;
               ss.SpiderCodes := [200]; ss.SleepTime := 250;
               ss.ParseHTML := false |} demoSite.

Definition rogueWorker : Worker Rogue HTMLWorker :=
  NewWorker demoSettings rogue.

(* ------------------------------------------------------------------ *)
(** ** The run loop and the pool *)
(* ------------------------------------------------------------------ *)

(** What one [select] of [Run] delivers to the worker. *)
Inductive Selected : Type :=
| SelStop                      (* case <-w.stop *)
| SelTask (task : url.URL)     (* case task, ok := <-w.src, with ok *)
| SelClosed.                   (* case task, ok := <-w.src, with !ok *)

(** How [Run] stands after a finite schedule of deliveries. *)
Inductive RunEnd : Type :=
| Stopped      (* returned on the stop signal *)
| Drained      (* returned on the closed source *)
| Waiting.     (* nothing more was delivered: blocked in the select *)

(** The [client.ClientFactory] interface: [Get] hands out a transport. *)
Class ClientFactory (F C : Type) : Type :=
  Get : F -> F * C.

Section Pool.

Context {C P : Type} {transport : client.Client C} {pw : PageWorker P}
        {ext : util.HasExtension}.

(** [Run], over the deliveries of its select, in order. *)
Fixpoint Run (sched : list Selected) : M (Worker C P) RunEnd :=
  match sched with
  | [] => ret Waiting
  | SelStop :: _ => ret Stopped
  | SelClosed :: _ => ret Drained
  | SelTask task :: rest => HandleURL task ;; Run rest
  end.

Context {F : Type} {factory : ClientFactory F C}.

(** The body of the loop of [StartWorkers], [n] more times: a worker on
    a transport of its own, with the page worker if HTML is parsed.  The
    goroutine [RunInBackground] starts is not followed here. *)
Fixpoint startLoop (n : nat) (s : ss.ScanSettings) (html : P) (f : F)
  : F * list (Worker C P) :=
  match n with
  | O => (f, [])
  | S n' =>
      let (f1, c) := Get f in
      let w := NewWorker s c in
      let w := if ss.ParseHTML s then SetPageWorker html w else w in
      let (f2, ws) := startLoop n' s html f1 in
      (f2, w :: ws)
  end.

(** [StartWorkers]; [html] is what [NewHTMLWorker(adder)] builds.
    [make([]*Worker, count)] panics on a negative count. *)
Definition StartWorkers (s : ss.ScanSettings) (html : P) (f : F)
  : Outcome (list (Worker C P)) * F :=
  let count := ss.Workers s in
  if count <? 0 then (Panicked "makeslice: len out of range", f)
  else
    let (f', workers) := startLoop (Z.to_nat count) s html f in
    (Returned workers, f').


End Pool.


(* ------------------------------------------------------------------ *)
(** ** More ways to read a trace, and to compare runs *)
(* ------------------------------------------------------------------ *)

(** The durations slept. *)
Definition sleeps (ev : list Event) : list Z :=
  flat_map (fun e => match e with EvSleep d => [d] | _ => [] end) ev.

(** What was handed to the page worker. *)
Definition handles (ev : list Event) : list (url.URL * http.ReadCloser) :=
  flat_map (fun e => match e with EvHandle u b => [(u, b)] | _ => [] end) ev.

(** A computation that makes at most [n] requests, wherever it starts. *)
Definition bounded {W A : Type} (n : nat) (m : M W A) : Prop :=
  forall w, (length (requests (events (m w))) <= n)%nat.

(** A computation that leaves the settings and the page worker alone. *)
Definition keeps {C P A : Type} (m : M (Worker C P) A) : Prop :=
  forall w, settings (final (m w)) = settings w /\
            pageWorker (final (m w)) = pageWorker w.

(** Two workers that differ at most in transport state and scratch slot. *)
Definition sameView {C P : Type} (w w' : Worker C P) : Prop :=
  settings w = settings w' /\ pageWorker w = pageWorker w'.

(** A transport whose answer to a URL does not depend on its state. *)
Definition Stateless (C : Type) {transport : client.Client C} : Prop :=
  forall (c c' : C) (u : url.URL),
    snd (client.RequestURL c u) = snd (client.RequestURL c' u).

(** A computation that cannot tell such workers apart. *)
Definition agree {C P A : Type} (m : M (Worker C P) A) : Prop :=
  forall w w', sameView w w' ->
    outcome (m w) = outcome (m w') /\
    events (m w) = events (m w') /\
    sameView (final (m w)) (final (m w')).

(** [u] is [task] with a longer path. *)
Definition derived (task u : url.URL) : Prop :=
  url.Scheme u = url.Scheme task /\
  url.Host u = url.Host task /\
  url.RawQuery u = url.RawQuery task /\
  (String.length (url.Path task) < String.length (url.Path u))%nat.

(** Every enqueue in a trace has its reason in a Result Record of the
    same trace: the URL is directory-style and its own record has no
    error and a spiderable code, or the URL is the redirect target some
    record reports. *)
Definition justified (s : ss.ScanSettings) (ev : list Event) : Prop :=
  forall u,
    In u (adds ev) ->
    (util.URLIsDir u = true /\
     exists r, In r (emitted ev) /\ results.URL r = u /\
               continues (ss.SpiderCodes s) r = true)
    \/
    (exists r, In r (emitted ev) /\ results.Redir r = Some u).

(** A computation whose enqueues are justified under the settings of
    the worker it starts from. *)
Definition accountable {C P A : Type} (m : M (Worker C P) A) : Prop :=
  forall w, justified (settings w) (events (m w)).

(** A factory that numbers the transports it hands out. *)
Definition Counter_Factory : ClientFactory nat Site :=
  fun n => (S n, {| pages := pages demoSite; served := n |}).

(** A transport without state of its own, answering as the demo site. *)
Inductive Static : Type := static.

Definition Static_Client : client.Client Static :=
  fun c u => (c, fetchOf (lookupPage (url.Path u) (pages demoSite))).

Definition staticWorker : Worker Static HTMLWorker :=
  NewWorker demoSettings static.

(* ------------------------------------------------------------------ *)
(** ** Byte-string facts *)
(* ------------------------------------------------------------------ *)

Lemma string_length_app (a b : string) :
  String.length (a ++ b)%string = (String.length a + String.length b)%nat.
Proof. induction a as [|x a IH]; simpl; [reflexivity | now rewrite IH]. Qed.

Lemma substring_all (s : string) : substring 0 (String.length s) s = s.
Proof. induction s as [|x s IH]; simpl; [reflexivity | now rewrite IH]. Qed.

Lemma substring_prefix (d x : string) :
  substring 0 (String.length d) (d ++ x)%string = d.
Proof.
  induction d as [|a d IH]; simpl.
  - destruct x; reflexivity.
  - now rewrite IH.
Qed.

Lemma substring_suffix (d x : string) :
  substring (String.length d) (String.length x) (d ++ x)%string = x.
Proof.
  induction d as [|a d IH]; simpl; [apply substring_all | exact IH].
Qed.

Lemma LastIndexByte_absent (s : string) (c : ascii) :
  strings.ContainsByte s c = false -> strings.LastIndexByte s c = -1.
Proof.
  induction s as [|a s IH]; simpl; [reflexivity|].
  intros H. apply orb_false_iff in H as [Ha Hs].
  rewrite (IH Hs), Ha. reflexivity.
Qed.

Lemma LastIndexByte_lower (s : string) (c : ascii) :
  -1 <= strings.LastIndexByte s c.
Proof.
  induction s as [|a s IH]; simpl; [lia|].
  destruct (0 <=? strings.LastIndexByte s c) eqn:E.
  - apply Z.leb_le in E. lia.
  - destruct (Ascii.eqb a c); lia.
Qed.

Lemma LastIndexByte_present (s : string) (c : ascii) :
  strings.ContainsByte s c = true -> 0 <= strings.LastIndexByte s c.
Proof.
  induction s as [|a s IH]; simpl; [discriminate|].
  intros H.
  destruct (0 <=? strings.LastIndexByte s c) eqn:E.
  - apply Z.leb_le in E. lia.
  - destruct (Ascii.eqb a c); [lia|].
    simpl in H. apply IH in H. apply Z.leb_gt in E. lia.
Qed.

Lemma LastIndexByte_app (d b : string) (c : ascii) :
  strings.ContainsByte b c = false ->
  strings.LastIndexByte (d ++ String c b)%string c = strings.len d.
Proof.
  intros Hb. unfold strings.len.
  induction d as [|a d IH].
  - simpl. rewrite (LastIndexByte_absent _ _ Hb). simpl.
    now rewrite Ascii.eqb_refl.
  - cbn [append strings.LastIndexByte]. rewrite IH.
    replace (0 <=? Z.of_nat (String.length d)) with true
      by (symmetry; apply Z.leb_le; lia).
    cbn [String.length]. lia.
Qed.

(** The index arithmetic of [TryMangleURL] computes the split of the
    specification. *)
Lemma slice_dirname (d x : string) :
  strings.slice (d ++ x)%string 0 (strings.len d) = d.
Proof.
  unfold strings.slice, strings.len.
  rewrite Z.sub_0_r, Nat2Z.id. apply substring_prefix.
Qed.

Lemma slice_basename (d b : string) (c : ascii) :
  strings.slice (d ++ String c b)%string (strings.len d + 1)
                (strings.len (d ++ String c b)%string) = b.
Proof.
  unfold strings.slice, strings.len.
  rewrite string_length_app. cbn [String.length].
  replace (Z.to_nat (Z.of_nat (String.length d) + 1))
    with (String.length (d ++ String c EmptyString)%string)
    by (rewrite string_length_app; simpl; lia).
  replace (Z.to_nat (Z.of_nat (String.length d + S (String.length b))
                     - (Z.of_nat (String.length d) + 1)))
    with (String.length b) by lia.
  replace (d ++ String c b)%string
    with ((d ++ String c EmptyString) ++ b)%string.
  - apply substring_suffix.
  - clear. induction d as [|a d IH]; simpl; [reflexivity | now rewrite IH].
Qed.

Lemma splitLastSlash_absent (p : string) :
  strings.ContainsByte p "/" = false -> splitLastSlash p = None.
Proof.
  induction p as [|a p IH]; simpl; [reflexivity|].
  intros H. apply orb_false_iff in H as [Ha Hp].
  now rewrite (IH Hp), Ha.
Qed.

Lemma splitLastSlash_app (d b : string) :
  strings.ContainsByte b "/" = false ->
  splitLastSlash (d ++ String "/" b)%string = Some (d, b).
Proof.
  intros Hb. induction d as [|a d IH].
  - simpl. now rewrite (splitLastSlash_absent _ Hb).
  - cbn [append splitLastSlash]. now rewrite IH.
Qed.

Lemma splitLastSlash_sound (p d b : string) :
  splitLastSlash p = Some (d, b) ->
  p = (d ++ String "/" b)%string /\ strings.ContainsByte b "/" = false.
Proof.
  revert d. induction p as [|a p IH]; simpl; [discriminate|].
  intros d. destruct (splitLastSlash p) as [[d' b']|] eqn:E.
  - intros H. injection H as <- <-. destruct (IH d' eq_refl) as [-> Hb].
    now split.
  - destruct (Ascii.eqb a "/") eqn:Ea; [|discriminate].
    intros H. injection H as <- <-. apply Ascii.eqb_eq in Ea. subst a.
    split; [reflexivity|].
    clear IH. induction p as [|x p IHp]; [reflexivity|].
    simpl in E |- *. destruct (splitLastSlash p) as [[? ?]|]; [discriminate|].
    destruct (Ascii.eqb x "/"); [discriminate|]. simpl. now apply IHp.
Qed.

(* ------------------------------------------------------------------ *)
(** ** Traces *)
(* ------------------------------------------------------------------ *)

Lemma requests_app (a b : list Event) : requests (a ++ b) = requests a ++ requests b.
Proof. apply flat_map_app. Qed.

Lemma emitted_app (a b : list Event) : emitted (a ++ b) = emitted a ++ emitted b.
Proof. apply flat_map_app. Qed.

Lemma adds_app (a b : list Event) : adds (a ++ b) = adds a ++ adds b.
Proof. apply flat_map_app. Qed.

Lemma dones_app (a b : list Event) : dones (a ++ b) = dones a ++ dones b.
Proof. apply flat_map_app. Qed.

Lemma closes_app (a b : list Event) : closes (a ++ b) = closes a ++ closes b.
Proof. apply flat_map_app. Qed.

Ltac split_trace :=
  rewrite ?requests_app, ?emitted_app, ?adds_app, ?dones_app, ?closes_app.

Ltac trace_pieces :=
  unfold sleepEvents, spiderAdds, redirectAdds, pageEvents;
  repeat match goal with
         | |- context [if ?b then _ else _] => destruct b
         | |- context [match ?o with Some _ => _ | None => _ end] => destruct o
         end;
  try reflexivity.

Lemma lastOf_nil_iff {A : Type} (l : list A) : lastOf l = None <-> l = [].
Proof.
  split; [|intros ->; reflexivity].
  destruct l as [|a l]; [reflexivity|].
  simpl. destruct (lastOf l); discriminate.
Qed.

Lemma KeepSpideringIn_existsb (codes : list Z) (code : Z) :
  KeepSpideringIn codes code = existsb (Z.eqb code) codes.
Proof.
  induction codes as [|v codes IH]; simpl; [reflexivity|].
  rewrite IH. destruct (code =? v); reflexivity.
Qed.

Lemma KeepSpideringIn_In (codes : list Z) (code : Z) :
  KeepSpideringIn codes code = true <-> In code codes.
Proof.
  rewrite KeepSpideringIn_existsb, existsb_exists. split.
  - intros (v & Hv & E). apply Z.eqb_eq in E. now subst.
  - intros H. exists code. split; [exact H | apply Z.eqb_refl].
Qed.

(* ------------------------------------------------------------------ *)
(** ** One fetch attempt, evaluated *)
(* ------------------------------------------------------------------ *)

Section Attempt.

Context {C P : Type} {transport : client.Client C} {pw : PageWorker P}
        {ext : util.HasExtension}.

Implicit Types (w : Worker C P) (task : url.URL) (f : client.Fetch).

Lemma handlers_run (l : list http.Request) w :
  fold_left (fun w req => snd (redirHandler req w)) l w =
  setRedir (match lastOf l with Some q => Some q | None => redir w end) w.
Proof.
  revert w. induction l as [|q l IH]; intros w.
  - destruct w; reflexivity.
  - simpl. rewrite IH. destruct (lastOf l); reflexivity.
Qed.

(** What [TryURL] does on the real-failure path. *)
Lemma TryURL_failure w task c f e :
  client.RequestURL (client w) task = (c, f) ->
  client.err f = Some e ->
  client.checked f = [] ->
  TryURL task w =
  (Returned false, after w c f,
   [EvRequest task; EvResult (failureResult task f e)] ++ sleepEvents w).
Proof.
  intros Hreq He Hc.
  unfold TryURL, bind, get, put, callRequestURL, after, sleepEvents.
  cbn [setRedir client settings pageWorker redir]. rewrite Hreq.
  rewrite handlers_run, Hc. cbn. rewrite He. cbn.
  destruct (ss.SleepTime (settings w) =? 0); reflexivity.
Qed.

(** What [TryURL] does on the other path, when a response is there. *)
Lemma TryURL_success w task c f r :
  client.RequestURL (client w) task = (c, f) ->
  realFailure f = false ->
  client.resp f = Some r ->
  TryURL task w =
  (Returned (KeepSpidering w (http.StatusCode r)), after w c f,
   [EvRequest task] ++ spiderAdds w task r ++ redirectAdds f
     ++ pageEvents w task r ++ [EvResult (successResult task f r)]
     ++ sleepEvents w ++ [EvClose (http.Body r)]).
Proof.
  intros Hreq Hf Hr.
  unfold TryURL, bind, get, put, callRequestURL, after, sleepEvents,
    spiderAdds, redirectAdds, pageEvents, successResult, realFailure in *.
  cbn [setRedir client settings pageWorker redir]. rewrite Hreq.
  rewrite handlers_run. cbn [setRedir setClient client settings pageWorker redir].
  destruct (client.err f) as [e|] eqn:He;
    destruct (client.checked f) as [|q0 l] eqn:Hc; try discriminate;
    destruct (lastOf _) as [q|] eqn:Hl;
    try (apply lastOf_nil_iff in Hl; discriminate);
    try discriminate;
    rewrite Hr; cbn;
    unfold KeepSpidering; cbn;
    destruct (util.URLIsDir task && _); cbn;
    destruct (pageWorker w) as [p|]; cbn;
    try destruct (Eligible p r); cbn;
    destruct (ss.SleepTime (settings w) =? 0); reflexivity.
Qed.

(** ... and when none is: the deferred [resp.Body.Close()] dereferences
    nil. *)
Lemma TryURL_nil_response w task c f :
  client.RequestURL (client w) task = (c, f) ->
  realFailure f = false ->
  client.resp f = None ->
  exists msg, TryURL task w = (Panicked msg, after w c f, [EvRequest task]).
Proof.
  intros Hreq Hf Hr. eexists.
  unfold TryURL, bind, get, put, callRequestURL, after, realFailure in *.
  cbn [setRedir client settings pageWorker redir]. rewrite Hreq.
  rewrite handlers_run. cbn [setRedir setClient client settings pageWorker redir].
  destruct (client.err f) as [e|] eqn:He;
    destruct (client.checked f) as [|q0 l] eqn:Hc; try discriminate;
    destruct (lastOf _) as [q|] eqn:Hl;
    try (apply lastOf_nil_iff in Hl; discriminate);
    try discriminate;
    rewrite Hr; reflexivity.
Qed.

End Attempt.

(* ------------------------------------------------------------------ *)
(** ** Running the monad *)
(* ------------------------------------------------------------------ *)

Section Running.

Context {W : Type}.

Lemma bind_returned {A B : Type} (m : M W A) (k : A -> M W B) w a w1 ev1 :
  m w = (Returned a, w1, ev1) ->
  bind m k w = (outcome (k a w1), final (k a w1), ev1 ++ events (k a w1)).
Proof.
  intros H. unfold bind, outcome, final, events. rewrite H.
  destruct (k a w1) as [[o w2] ev2]. reflexivity.
Qed.

Lemma run_eta {A : Type} (r : Outcome A * W * list Event) :
  r = (outcome r, final r, events r).
Proof. destruct r as [[o w] ev]. reflexivity. Qed.

Lemma quiet_ret {A : Type} (a : A) : quiet (W := W) (ret a).
Proof. intros w. reflexivity. Qed.

Lemma quiet_bind {A B : Type} (m : M W A) (k : A -> M W B) :
  quiet m -> (forall a, quiet (k a)) -> quiet (bind m k).
Proof.
  intros Hm Hk w. specialize (Hm w). unfold bind.
  destruct (m w) as [[[a|msg] w1] ev1]; cbn [events snd] in *; [|exact Hm].
  specialize (Hk a w1). destruct (k a w1) as [[o w2] ev2]. cbn [events snd] in *.
  rewrite dones_app, Hm, Hk. reflexivity.
Qed.

Lemma quiet_when (b : bool) (m : M W unit) : quiet m -> quiet (when b m).
Proof. destruct b; [trivial | intros _; apply quiet_ret]. Qed.

Lemma quiet_forRange {A : Type} (l : list A) (body : A -> M W unit) :
  (forall x, quiet (body x)) -> quiet (forRange l body).
Proof.
  intros H. induction l as [|x l IH]; [apply quiet_ret|].
  simpl. apply quiet_bind; [apply H | intros _; exact IH].
Qed.

End Running.

Section Fanout.

Context {C P : Type} {transport : client.Client C} {pw : PageWorker P}
        {ext : util.HasExtension}.

Implicit Types (w : Worker C P) (task u : url.URL) (f : client.Fetch).

Lemma realFailure_true f :
  realFailure f = true ->
  exists e, client.err f = Some e /\ client.checked f = [].
Proof.
  unfold realFailure. destruct (client.err f) as [e|]; [|discriminate].
  destruct (client.checked f); [|discriminate]. intros _. now exists e.
Qed.

Lemma realFailure_false f :
  realFailure f = false <-> client.err f = None \/ client.checked f <> [].
Proof.
  unfold realFailure. destruct (client.err f) as [e|];
    destruct (client.checked f); split; intros H; try discriminate;
    try reflexivity; try (right; discriminate); try (left; reflexivity).
  destruct H as [H|H]; [discriminate | now elim H].
Qed.

Lemma TryURL_cases w task : TryURL_case w task (TryURL task w).
Proof.
  destruct (client.RequestURL (client w) task) as [c f] eqn:Hreq.
  destruct (realFailure f) eqn:Hf.
  - destruct (realFailure_true f Hf) as (e & He & Hc).
    rewrite (TryURL_failure w task c f e Hreq He Hc).
    now apply case_failure.
  - destruct (client.resp f) as [r|] eqn:Hr.
    + rewrite (TryURL_success w task c f r Hreq Hf Hr).
      now apply case_success.
    + destruct (TryURL_nil_response w task c f Hreq Hf Hr) as [msg ->].
      now apply case_nil.
Qed.

Lemma TryURL_quiet task : quiet (TryURL task).
Proof.
  intros w. destruct (TryURL_cases w task); cbn [events snd];
    try reflexivity; split_trace; cbn; trace_pieces.
Qed.

Lemma TryURL_settings w task : settings (final (TryURL task w)) = settings w.
Proof. destruct (TryURL_cases w task); reflexivity. Qed.

Lemma KeepSpidering_continues w task f r :
  continues (ss.SpiderCodes (settings w)) (successResult task f r)
  = KeepSpidering w (http.StatusCode r).
Proof.
  unfold continues, KeepSpidering. cbn.
  symmetry. apply KeepSpideringIn_existsb.
Qed.

(** Under the transport's promise an attempt returns, after one request
    and one Result Record for the URL it was given; the record tells
    what was returned. *)
Lemma TryURL_returns (HT : TransportAnswers C) w task :
  exists b r,
    outcome (TryURL task w) = Returned b /\
    requests (events (TryURL task w)) = [task] /\
    emitted (events (TryURL task w)) = [r] /\
    results.URL r = task /\
    continues (ss.SpiderCodes (settings w)) r = b.
Proof.
  destruct (TryURL_cases w task) as [c f e Hreq He Hc|c f r Hreq Hf Hr|c f msg Hreq Hf Hr].
  - exists false, (failureResult task f e). cbn [outcome events fst snd].
    repeat split; split_trace; cbn; trace_pieces.
  - exists (KeepSpidering w (http.StatusCode r)), (successResult task f r).
    cbn [outcome events fst snd].
    split; [reflexivity|]. split; [split_trace; cbn; trace_pieces|].
    split; [split_trace; cbn; trace_pieces|].
    split; [reflexivity | apply KeepSpidering_continues].
  - exfalso. specialize (HT (client w) task). rewrite Hreq in HT.
    unfold answered in HT. cbn in HT. rewrite Hr, Hf in HT. discriminate.
Qed.

(** Sequencing, read off the runs. *)
Lemma bind_run {A B : Type} (m : M (Worker C P) A) (k : A -> M (Worker C P) B) w a :
  outcome (m w) = Returned a ->
  bind m k w = (outcome (k a (final (m w))), final (k a (final (m w))),
                events (m w) ++ events (k a (final (m w)))).
Proof.
  intros H. apply bind_returned. rewrite (run_eta (m w)) at 1. now rewrite H.
Qed.

Lemma bind_assoc {A B D : Type} (m : M (Worker C P) A)
      (k : A -> M (Worker C P) B) (h : B -> M (Worker C P) D) w :
  bind (bind m k) h w = bind m (fun a => bind (k a) h) w.
Proof.
  unfold bind. destruct (m w) as [[[a|msg] w1] ev1]; [|reflexivity].
  destruct (k a w1) as [[[b|msg] w2] ev2]; [|reflexivity].
  destruct (h b w2) as [[o w3] ev3]. now rewrite app_assoc.
Qed.

Lemma bind_ext {A B : Type} (m : M (Worker C P) A)
      (k k' : A -> M (Worker C P) B) w :
  (forall a w1, k a w1 = k' a w1) -> bind m k w = bind m k' w.
Proof.
  intros H. unfold bind. destruct (m w) as [[[a|msg] w1] ev1]; [|reflexivity].
  now rewrite H.
Qed.

(** A loop of plain attempts, one per element. *)
Lemma attempts_return (HT : TransportAnswers C) {A : Type} (g : A -> url.URL)
      (l : list A) w :
  let run := forRange l (fun x => bind (TryURL (g x)) (fun _ => ret tt)) w in
  outcome run = Returned tt /\
  settings (final run) = settings w /\
  requests (events run) = map g l /\
  map results.URL (emitted (events run)) = map g l.
Proof.
  revert w. induction l as [|x l IH]; intros w; [now cbn|].
  cbn zeta. cbn [forRange].
  destruct (TryURL_returns HT w (g x)) as (b & r & Ho & Hq & He & Hu & _).
  pose proof (TryURL_settings w (g x)) as Hs.
  set (w1 := final (TryURL (g x) w)) in *.
  assert (Hbody : bind (TryURL (g x)) (fun _ => ret tt) w
                  = (Returned tt, w1, events (TryURL (g x) w) ++ [])).
  { rewrite (bind_run _ _ w b Ho). reflexivity. }
  rewrite (bind_returned _ _ w tt w1 _ Hbody).
  destruct (IH w1) as (Io & Is & Iq & Ie).
  cbn [outcome final events fst snd].
  split; [exact Io|]. split; [now rewrite Is|].
  rewrite app_nil_r. split_trace. rewrite Hq, He, Iq, map_app, Ie.
  cbn [map app]. rewrite Hu. now split.
Qed.

Lemma splitLastSlash_none (p : string) :
  splitLastSlash p = None -> strings.ContainsByte p "/" = false.
Proof.
  induction p as [|a p IH]; [reflexivity|]. simpl.
  destruct (splitLastSlash p) as [[d b]|]; [discriminate|].
  destruct (Ascii.eqb a "/"); [discriminate|]. intros _. now apply IH.
Qed.

(** [TryMangleURL], its guards evaluated. *)
Lemma TryMangleURL_run w task :
  TryMangleURL task w =
  if negb (ss.Mangle (settings w)) then (Returned tt, w, [])
  else match splitLastSlash (url.Path task) with
       | None => (Returned tt, w, [])
       | Some (d, b) =>
           forRange (Mangle b)
             (fun newname =>
                bind (TryURL (url.withPath task (d ++ "/" ++ newname)%string))
                     (fun _ => ret tt)) w
       end.
Proof.
  unfold TryMangleURL, bind at 1, get.
  destruct (negb (ss.Mangle (settings w))); [reflexivity|].
  destruct (splitLastSlash (url.Path task)) as [[d b]|] eqn:E.
  - destruct (splitLastSlash_sound _ _ _ E) as [Hp Hb].
    cbv zeta. rewrite Hp, (LastIndexByte_app d b _ Hb).
    replace (strings.len d =? -1) with false
      by (symmetry; apply Z.eqb_neq; unfold strings.len; lia).
    rewrite slice_dirname, slice_basename.
    destruct (forRange _ _ w) as [[o w2] ev2]. reflexivity.
  - rewrite (LastIndexByte_absent _ _ (splitLastSlash_none _ E)). reflexivity.
Qed.

Lemma TryMangleURL_quiet task : quiet (TryMangleURL task).
Proof.
  intros w. rewrite TryMangleURL_run.
  destruct (negb _); [reflexivity|].
  destruct (splitLastSlash _) as [[d b]|]; [|reflexivity].
  apply quiet_forRange. intros x. apply quiet_bind; [apply TryURL_quiet|].
  intros _. apply quiet_ret.
Qed.

(** Under the transport's promise [TryMangleURL] returns after exactly
    the mangle attempts the URL is due. *)
Lemma TryMangleURL_returns (HT : TransportAnswers C) w task :
  outcome (TryMangleURL task w) = Returned tt /\
  settings (final (TryMangleURL task w)) = settings w /\
  requests (events (TryMangleURL task w)) = mangleTargets (settings w) task /\
  map results.URL (emitted (events (TryMangleURL task w)))
    = mangleTargets (settings w) task.
Proof.
  rewrite TryMangleURL_run. unfold mangleTargets.
  destruct (ss.Mangle (settings w)); cbn [negb]; [|now cbn].
  destruct (splitLastSlash (url.Path task)) as [[d b]|]; [|now cbn].
  unfold mangleVariants.
  apply (attempts_return HT
           (fun newname => url.withPath task (d ++ "/" ++ newname)%string)).
Qed.

Lemma attemptWithMangle_returns (HT : TransportAnswers C) w u :
  let run := attemptWithMangle u w in
  outcome run = Returned tt /\
  settings (final run) = settings w /\
  attemptBlock (settings w) u (emitted (events run)) /\
  requests (events run) = map results.URL (emitted (events run)).
Proof.
  cbn zeta. unfold attemptWithMangle.
  destruct (TryURL_returns HT w u) as (b & r & Ho & Hq & He & Hu & Hc).
  pose proof (TryURL_settings w u) as Hs.
  rewrite (bind_run _ _ w b Ho). cbn [outcome final events fst snd].
  destruct b; cbn [when].
  - destruct (TryMangleURL_returns HT (final (TryURL u w)) u)
      as (Mo & Ms & Mq & Me).
    rewrite Hs in *. split; [exact Mo|]. split; [exact Ms|].
    split_trace. rewrite He, Hq, Mq. cbn [app map]. rewrite Me, Hu.
    split; [|reflexivity]. now apply block_mangled.
  - cbn [ret outcome final events fst snd]. rewrite app_nil_r, He, Hq.
    cbn [map]. rewrite Hu.
    split; [reflexivity|]. split; [exact Hs|].
    split; [|reflexivity]. now apply block_plain.
Qed.

(** The loop over the configured extensions. *)
Lemma extensions_return (HT : TransportAnswers C) w task (exts : list string) :
  let run := forRange exts (fun e => attemptWithMangle (extVariant task e)) w in
  outcome run = Returned tt /\
  settings (final run) = settings w /\
  (exists blocks,
      emitted (events run) = concat blocks /\
      Forall2 (attemptBlock (settings w)) (map (extVariant task) exts) blocks) /\
  requests (events run) = map results.URL (emitted (events run)).
Proof.
  revert w. induction exts as [|e exts IH]; intros w.
  - cbn. repeat split. exists []. now split.
  - cbn zeta. cbn [forRange].
    destruct (attemptWithMangle_returns HT w (extVariant task e))
      as (Ho & Hs & Hb & Hq).
    rewrite (bind_run _ _ w tt Ho). cbn [outcome final events fst snd].
    destruct (IH (final (attemptWithMangle (extVariant task e) w)))
      as (Io & Is & (blocks & Ie & If) & Iq).
    rewrite Hs in *. split; [exact Io|]. split; [exact Is|]. split.
    + exists (emitted (events (attemptWithMangle (extVariant task e) w)) :: blocks).
      split_trace. cbn [concat map]. rewrite Ie. split; [reflexivity|].
      now constructor.
    + split_trace. rewrite map_app, Hq, Iq. reflexivity.
Qed.

Lemma ret_bind {A B : Type} (a : A) (k : A -> M (Worker C P) B) w :
  bind (ret a) k w = k a w.
Proof. unfold bind, ret. destruct (k a w) as [[o w2] ev2]. reflexivity. Qed.

Lemma get_bind {B : Type} (k : Worker C P -> M (Worker C P) B) w :
  bind get k w = k w w.
Proof. unfold bind, get. destruct (k w w) as [[o w2] ev2]. reflexivity. Qed.

Lemma bind_cong {A B : Type} (m m' : M (Worker C P) A)
      (k : A -> M (Worker C P) B) w :
  m w = m' w -> bind m k w = bind m' k w.
Proof. intros H. unfold bind. now rewrite H. Qed.

(** [HandleURL], regrouped: the raw attempt with its mangle attempts,
    the extension attempts, the done signal. *)
Lemma HandleURL_run w task :
  HandleURL task w =
  if util.URLIsDir task
  then bind (TryURL task) (fun _ => emit (EvDone 1)) w
  else bind (attemptWithMangle task)
            (fun _ => bind (extensionAttempts task)
                           (fun _ => emit (EvDone 1))) w.
Proof.
  unfold HandleURL. destruct (util.URLIsDir task); cbn [negb when].
  - apply bind_ext. intros b w1.
    exact (ret_bind tt (fun _ => emit (EvDone 1)) w1).
  - unfold attemptWithMangle at 1. rewrite bind_assoc.
    apply bind_ext. intros b w1. rewrite bind_assoc.
    apply bind_ext. intros _ w2. apply bind_cong.
    rewrite get_bind. unfold extensionAttempts.
    destruct (util.URLHasExtension task); reflexivity.
Qed.

Lemma get_quiet : quiet (W := Worker C P) get.
Proof. intros w. reflexivity. Qed.

Lemma attemptWithMangle_quiet u : quiet (attemptWithMangle u).
Proof.
  apply quiet_bind; [apply TryURL_quiet|].
  intros b. apply quiet_when, TryMangleURL_quiet.
Qed.

Lemma extensionAttempts_quiet task : quiet (extensionAttempts task).
Proof.
  intros w. unfold extensionAttempts.
  destruct (util.URLHasExtension task); [reflexivity|].
  apply quiet_forRange. intros e. apply attemptWithMangle_quiet.
Qed.

(** A quiet computation followed by [done(1)]: one signal when the
    computation returns, none when it panics. *)
Lemma done_after_quiet {A : Type} (m : M (Worker C P) A) w :
  quiet m ->
  dones (events (bind m (fun _ => emit (EvDone 1)) w)) =
  match outcome (bind m (fun _ => emit (EvDone 1)) w) with
  | Returned _ => [1]
  | Panicked _ => []
  end.
Proof.
  intros Hm. specialize (Hm w). unfold bind, emit.
  destruct (m w) as [[[a|msg] w1] ev1]; cbn [outcome events fst snd] in *.
  - now rewrite dones_app, Hm.
  - exact Hm.
Qed.

Lemma HandleURL_dones w task :
  dones (events (HandleURL task w)) =
  match outcome (HandleURL task w) with
  | Returned _ => [1]
  | Panicked _ => []
  end.
Proof.
  rewrite HandleURL_run. destruct (util.URLIsDir task).
  - apply done_after_quiet, TryURL_quiet.
  - rewrite <- bind_assoc. apply done_after_quiet.
    apply quiet_bind; [apply attemptWithMangle_quiet|].
    intros _. apply extensionAttempts_quiet.
Qed.

Lemma extensionAttempts_returns (HT : TransportAnswers C) w task :
  let run := extensionAttempts task w in
  outcome run = Returned tt /\
  settings (final run) = settings w /\
  (exists blocks,
      emitted (events run) = concat blocks /\
      Forall2 (attemptBlock (settings w))
              (if util.URLHasExtension task then []
               else map (extVariant task) (ss.Extensions (settings w)))
              blocks) /\
  requests (events run) = map results.URL (emitted (events run)).
Proof.
  unfold extensionAttempts. destruct (util.URLHasExtension task).
  - cbn. repeat split. exists []. now split.
  - apply extensions_return, HT.
Qed.

(** The fan-out of [HandleURL] on a URL that is not directory-style. *)
Lemma HandleURL_leaf (HT : TransportAnswers C) w task :
  util.URLIsDir task = false ->
  let run := HandleURL task w in
  outcome run = Returned tt /\
  (exists first blocks,
      emitted (events run) = first ++ concat blocks /\
      attemptBlock (settings w) task first /\
      Forall2 (attemptBlock (settings w))
              (if util.URLHasExtension task then []
               else map (extVariant task) (ss.Extensions (settings w)))
              blocks) /\
  requests (events run) = map results.URL (emitted (events run)).
Proof.
  intros Hdir. cbn zeta. rewrite HandleURL_run, Hdir.
  destruct (attemptWithMangle_returns HT w task) as (Ho & Hs & Hb & Hq).
  rewrite (bind_run _ _ w tt Ho).
  set (w1 := final (attemptWithMangle task w)) in *.
  destruct (extensionAttempts_returns HT w1 task)
    as (Eo & Es & (blocks & Ee & Ef) & Eq).
  rewrite (bind_run _ _ w1 tt Eo). rewrite Hs in Ef.
  cbn [outcome final events fst snd emit].
  split; [reflexivity|]. split.
  - exists (emitted (events (attemptWithMangle task w))), blocks.
    split_trace. rewrite Ee. cbn [emitted flat_map]. rewrite app_nil_r.
    now repeat split.
  - split_trace. rewrite !map_app, Hq, Eq. reflexivity.
Qed.

(** When [TryURL] closes the response body: on the path that is not the
    real-failure path, and there only. *)
Lemma TryURL_closes w task :
  closes (events (TryURL task w)) =
  let f := snd (client.RequestURL (client w) task) in
  if realFailure f then []
  else match client.resp f with
       | Some r => [http.Body r]
       | None => []
       end.
Proof.
  destruct (TryURL_cases w task) as [c f e Hreq He Hc|c f r Hreq Hf Hr|c f msg Hreq Hf Hr];
    rewrite Hreq; cbn [events snd]; cbv zeta.
  - unfold realFailure. rewrite He, Hc. split_trace. cbn. trace_pieces.
  - rewrite Hf, Hr. split_trace. cbn. trace_pieces.
  - rewrite Hf, Hr. reflexivity.
Qed.

Lemma HandleURL_returns (HT : TransportAnswers C) w task :
  outcome (HandleURL task w) = Returned tt.
Proof.
  destruct (util.URLIsDir task) eqn:Hdir.
  - rewrite HandleURL_run, Hdir.
    destruct (TryURL_returns HT w task) as (b & r & Ho & _).
    rewrite (bind_run _ _ w b Ho). reflexivity.
  - apply (HandleURL_leaf HT w task Hdir).
Qed.

End Fanout.

(* ------------------------------------------------------------------ *)
(** ** The specification's claims *)
(* ------------------------------------------------------------------ *)

Section Claims.

Context {C P : Type} {transport : client.Client C} {pw : PageWorker P}
        {ext : util.HasExtension}.

Implicit Types (w : Worker C P) (task u : url.URL) (f : client.Fetch).

Lemma captured_not_failure f q :
  lastOf (client.checked f) = Some q -> realFailure f = false.
Proof.
  intros H. apply realFailure_false. right. intros E.
  rewrite E in H. discriminate.
Qed.

(** C1.  [TryURL] starts from a cleared scratch slot: a call behaves as
    it does on the worker whose slot is nil, whatever an earlier attempt
    left there, and afterwards the slot holds what the handler captured
    during this call, nil if nothing.  When the fetch reports an error
    and the handler captured a redirect during the call (and the
    response is there, as a Fetch Outcome with a redirect has it), the
    call takes the success path: it returns what [KeepSpidering] says of
    the status code, the one Result Record it sends has no error and
    carries the redirect's target, and that target is handed to [adder]
    (after the URL itself, when it is a spiderable directory). *)
Theorem TryURL_redirect_intercepted :
  (forall w task, TryURL task w = TryURL task (setRedir None w)) /\
  (forall w task,
      redir (final (TryURL task w))
      = lastOf (client.checked (snd (client.RequestURL (client w) task)))) /\
  (forall w task c f e q r,
      client.RequestURL (client w) task = (c, f) ->
      client.err f = Some e ->
      lastOf (client.checked f) = Some q ->
      client.resp f = Some r ->
      outcome (TryURL task w) = Returned (KeepSpidering w (http.StatusCode r)) /\
      emitted (events (TryURL task w)) =
        [ {| results.URL := task;
             results.Code := http.StatusCode r;
             results.Error := None;
             results.Redir := Some (http.URL q);
             results.Length := http.ContentLength r |} ] /\
      adds (events (TryURL task w)) =
        (if util.URLIsDir task && KeepSpidering w (http.StatusCode r)
         then [task] else []) ++ [http.URL q] /\
      redir (final (TryURL task w)) = Some q).
Proof.
  split; [reflexivity|]. split.
  { intros w task. destruct (TryURL_cases w task) as [c f ? Hreq|c f ? Hreq|c f ? Hreq];
      rewrite Hreq; reflexivity. }
  intros w task c f e q r Hreq He Hq Hr.
  rewrite (TryURL_success w task c f r Hreq (captured_not_failure f q Hq) Hr).
  cbn [outcome final events fst snd]. split; [reflexivity|].
  unfold successResult, redirectAdds, after. rewrite Hq. cbn [option_map].
  split; [|split; [|reflexivity]]; split_trace; cbn; trace_pieces.
Qed.

(** C3.  Every call of [HandleURL] that returns has sent exactly one
    [done(1)], whatever attempts it made on the way (and none when it
    panicked); and on a transport that keeps its promise every call
    returns. *)
Theorem HandleURL_done_once :
  (forall w task,
      dones (events (HandleURL task w)) =
      match outcome (HandleURL task w) with
      | Returned _ => [1]
      | Panicked _ => []
      end) /\
  (TransportAnswers C ->
   forall w task,
     outcome (HandleURL task w) = Returned tt /\
     dones (events (HandleURL task w)) = [1]).
Proof.
  split; [exact HandleURL_dones|].
  intros HT w task. pose proof (HandleURL_returns HT w task) as Ho.
  split; [exact Ho|]. rewrite HandleURL_dones, Ho. reflexivity.
Qed.

(** The trace of [HandleURL] on a spiderable directory, redirect or not. *)
Lemma HandleURL_directory_trace w task c f r :
  util.URLIsDir task = true ->
  client.RequestURL (client w) task = (c, f) ->
  client.err f = None ->
  client.resp f = Some r ->
  KeepSpidering w (http.StatusCode r) = true ->
  HandleURL task w =
  (Returned tt, after w c f,
   ([EvRequest task] ++ [EvAdd task] ++ redirectAdds f
      ++ pageEvents w task r ++ [EvResult (successResult task f r)]
      ++ sleepEvents w ++ [EvClose (http.Body r)]) ++ [EvDone 1]).
Proof.
  intros Hd Hreq He Hr Hk.
  assert (Hf : realFailure f = false) by (apply realFailure_false; now left).
  rewrite HandleURL_run, Hd.
  pose proof (TryURL_success w task c f r Hreq Hf Hr) as Hrun.
  rewrite (bind_returned _ _ _ _ _ _ Hrun).
  cbn [outcome final events fst snd emit].
  unfold spiderAdds. rewrite Hd, Hk. reflexivity.
Qed.

(** C4.  For a URL whose path ends in "/" and whose fetch succeeds (no
    error, no redirect stopped by the handler, a response) with a
    spiderable status code, [HandleURL] returns after one fetch attempt
    only, that of the URL itself (no mangle variant, no extension
    variant), one Result Record, and one call of [adder], for that same
    URL. *)
Theorem HandleURL_directory_spidered w task c f r :
  strings.HasSuffixByte (url.Path task) "/" = true ->
  client.RequestURL (client w) task = (c, f) ->
  client.err f = None ->
  client.checked f = [] ->
  client.resp f = Some r ->
  In (http.StatusCode r) (ss.SpiderCodes (settings w)) ->
  outcome (HandleURL task w) = Returned tt /\
  requests (events (HandleURL task w)) = [task] /\
  map results.URL (emitted (events (HandleURL task w))) = [task] /\
  adds (events (HandleURL task w)) = [task].
Proof.
  intros Hdir Hreq He Hc Hr Hcode.
  assert (Hk : KeepSpidering w (http.StatusCode r) = true)
    by now apply KeepSpideringIn_In.
  rewrite (HandleURL_directory_trace w task c f r Hdir Hreq He Hr Hk).
  cbn [outcome events fst snd]. unfold redirectAdds. rewrite Hc.
  split; [reflexivity|].
  repeat split; split_trace; cbn; trace_pieces.
Qed.

(** C5.  When the transport reports an error and the handler captured
    no redirect during the call, [TryURL] sends exactly one Result
    Record, with the error and with the response's status code if a
    response came back (Go's zero value [0] if none did), calls [adder]
    for nothing, makes no further request and returns false. *)
Theorem TryURL_real_failure w task c f e :
  client.RequestURL (client w) task = (c, f) ->
  client.err f = Some e ->
  client.checked f = [] ->
  outcome (TryURL task w) = Returned false /\
  emitted (events (TryURL task w)) =
    [ {| results.URL := task;
         results.Code := match client.resp f with
                         | Some r => http.StatusCode r
                         | None => 0
                         end;
         results.Error := Some e;
         results.Redir := None;
         results.Length := 0 |} ] /\
  adds (events (TryURL task w)) = [] /\
  requests (events (TryURL task w)) = [task].
Proof.
  intros Hreq He Hc. rewrite (TryURL_failure w task c f e Hreq He Hc).
  cbn [outcome events fst snd]. split; [reflexivity|].
  unfold failureResult.
  repeat split; split_trace; cbn; trace_pieces.
Qed.

(** C6.  On a transport that keeps its promise, [HandleURL] on a URL
    whose path does not end in "/" returns, and the Result Records it
    sent (one per fetch attempt, in order) fall into blocks.  The first
    block is the raw URL's: its record, followed by its mangle attempts
    exactly when the record [continues].  If the URL has no extension
    there follows one block per configured extension, in order, for the
    URL whose path is the original path plus "." plus the extension, of
    the same shape: [len(settings.Extensions)] blocks.  If the URL has
    an extension the first block is all there is.  And the record of an
    attempt [continues] exactly when its [TryURL] returned true. *)
Theorem HandleURL_extension_variants (HT : TransportAnswers C) w task :
  strings.HasSuffixByte (url.Path task) "/" = false ->
  outcome (HandleURL task w) = Returned tt /\
  requests (events (HandleURL task w))
    = map results.URL (emitted (events (HandleURL task w))) /\
  (exists first blocks,
      emitted (events (HandleURL task w)) = first ++ concat blocks /\
      attemptBlock (settings w) task first /\
      Forall2 (attemptBlock (settings w))
              (if util.URLHasExtension task then []
               else map (fun e => url.withPath task (url.Path task ++ "." ++ e)%string)
                        (ss.Extensions (settings w)))
              blocks /\
      length blocks = (if util.URLHasExtension task then 0%nat
                       else length (ss.Extensions (settings w)))) /\
  (forall w' u, exists r,
      emitted (events (TryURL u w')) = [r] /\
      outcome (TryURL u w')
        = Returned (continues (ss.SpiderCodes (settings w')) r)).
Proof.
  intros Hdir.
  destruct (HandleURL_leaf HT w task Hdir)
    as (Ho & (first & blocks & He & Hfirst & Hblocks) & Hq).
  split; [exact Ho|]. split; [exact Hq|]. split.
  - exists first, blocks. repeat split; try assumption.
    apply Forall2_length in Hblocks. rewrite <- Hblocks.
    destruct (util.URLHasExtension task); [reflexivity | apply length_map].
  - intros w' u.
    destruct (TryURL_returns HT w' u) as (b & r & Hb & _ & Hr & _ & Hc).
    exists r. split; [exact Hr | now rewrite Hc].
Qed.

(** C7.  [TryMangleURL] does nothing when mangling is off, and nothing
    when the path has no "/".  Otherwise, for a path [d/b] with no "/"
    in [b], on a transport that keeps its promise it returns after
    exactly one fetch attempt per candidate of [Mangle b], in order, each
    for the URL that differs from the task in its path alone, which is
    [d/candidate]; each attempt sends its one Result Record, and no other
    request is made. *)
Theorem TryMangleURL_attempts :
  (forall w task,
      ss.Mangle (settings w) = false ->
      TryMangleURL task w = (Returned tt, w, [])) /\
  (forall w task,
      strings.ContainsByte (url.Path task) "/" = false ->
      TryMangleURL task w = (Returned tt, w, [])) /\
  (TransportAnswers C ->
   forall w task d b,
     ss.Mangle (settings w) = true ->
     url.Path task = (d ++ "/" ++ b)%string ->
     strings.ContainsByte b "/" = false ->
     outcome (TryMangleURL task w) = Returned tt /\
     requests (events (TryMangleURL task w)) =
       map (fun newname => url.withPath task (d ++ "/" ++ newname)%string)
           (Mangle b) /\
     length (requests (events (TryMangleURL task w))) = length (Mangle b) /\
     map results.URL (emitted (events (TryMangleURL task w))) =
       requests (events (TryMangleURL task w))).
Proof.
  split; [|split].
  - intros w task H. rewrite TryMangleURL_run, H. reflexivity.
  - intros w task H. rewrite TryMangleURL_run, (splitLastSlash_absent _ H).
    destruct (negb _); reflexivity.
  - intros HT w task d b Hm Hp Hb.
    destruct (TryMangleURL_returns HT w task) as (Ho & _ & Hq & He).
    unfold mangleTargets in Hq, He. rewrite Hm, Hp in Hq, He.
    change (d ++ "/" ++ b)%string with (d ++ String "/" b)%string in Hq, He.
    rewrite (splitLastSlash_app d b Hb) in Hq, He.
    split; [exact Ho|]. split; [exact Hq|].
    split; [rewrite Hq; apply length_map | now rewrite He, Hq].
Qed.

(** C8.  Whenever [TryURL] is not on the real-failure path (no error, or
    a redirect captured) and the response is there, it returns a
    boolean, the one [KeepSpidering] computes, which is true exactly
    when the response's status code is one of [settings.SpiderCodes]. *)
Theorem TryURL_returns_KeepSpidering w task c f r :
  client.RequestURL (client w) task = (c, f) ->
  client.err f = None \/ client.checked f <> [] ->
  client.resp f = Some r ->
  exists b,
    outcome (TryURL task w) = Returned b /\
    b = KeepSpidering w (http.StatusCode r) /\
    (b = true <-> In (http.StatusCode r) (ss.SpiderCodes (settings w))).
Proof.
  intros Hreq Hf Hr. apply realFailure_false in Hf.
  exists (KeepSpidering w (http.StatusCode r)).
  rewrite (TryURL_success w task c f r Hreq Hf Hr).
  split; [reflexivity|]. split; [reflexivity|].
  apply KeepSpideringIn_In.
Qed.

(** C10.  [TryURL] calls [adder] for two things only: the URL itself,
    when it is directory-style and the response's status code is
    spiderable, and the target of a redirect captured during the call.
    So an attempt on a URL whose path does not end in "/", with no
    redirect captured, enqueues nothing. *)
Theorem TryURL_adds_only_spider_and_redirect :
  (forall w task u,
      In u (adds (events (TryURL task w))) ->
      (u = task /\
       strings.HasSuffixByte (url.Path task) "/" = true /\
       exists r, client.resp (snd (client.RequestURL (client w) task)) = Some r /\
                 In (http.StatusCode r) (ss.SpiderCodes (settings w)))
      \/
      (exists q,
          lastOf (client.checked (snd (client.RequestURL (client w) task))) = Some q /\
          u = http.URL q)) /\
  (forall w task,
      strings.HasSuffixByte (url.Path task) "/" = false ->
      client.checked (snd (client.RequestURL (client w) task)) = [] ->
      adds (events (TryURL task w)) = []).
Proof.
  split.
  - intros w task u.
    destruct (TryURL_cases w task) as [c f e Hreq He Hc|c f r Hreq Hf Hr|c f msg Hreq Hf Hr];
      rewrite Hreq; cbn [events snd].
    + split_trace. cbn. unfold sleepEvents.
      destruct (_ =? 0); intros [].
    + intros Hin.
      assert (Hadds : In u (adds (spiderAdds w task r) ++ adds (redirectAdds f))).
      { revert Hin. split_trace. cbn. unfold pageEvents, sleepEvents.
        destruct (pageWorker w) as [p|]; [destruct (Eligible p r)|];
          destruct (_ =? 0); cbn; now rewrite ?app_nil_r. }
      apply in_app_or in Hadds as [Hs|Hq].
      * left. unfold spiderAdds in Hs.
        destruct (util.URLIsDir task) eqn:Hd; cbn in Hs; [|contradiction].
        destruct (KeepSpidering w (http.StatusCode r)) eqn:Hk; cbn in Hs;
          [|contradiction].
        destruct Hs as [<-|[]]. split; [reflexivity|]. split; [exact Hd|].
        exists r. split; [exact Hr|]. now apply KeepSpideringIn_In.
      * right. unfold redirectAdds in Hq.
        destruct (lastOf (client.checked f)) as [q|]; [|contradiction].
        destruct Hq as [<-|[]]. now exists q.
    + intros [].
  - intros w task Hdir Hc.
    assert (Hd : util.URLIsDir task = false) by exact Hdir.
    destruct (TryURL_cases w task) as [c f e Hreq He Hc'|c f r Hreq Hf Hr|c f msg Hreq Hf Hr];
      rewrite Hreq in Hc; cbn [events snd] in *.
    + split_trace. cbn. trace_pieces.
    + unfold spiderAdds, redirectAdds. rewrite Hd, Hc.
      split_trace. cbn. trace_pieces.
    + reflexivity.
Qed.

End Claims.

(** C9.  [Mangle] is a function of the basename alone (a term of type
    [string -> list string], outside the worker's monad): for every
    basename, the empty one included, it yields the four candidates of
    the four rules, in rule order. *)
Theorem Mangle_fixed_rules :
  (forall basename,
      Mangle basename =
      [ ("." ++ basename ++ ".swp")%string
      ; (basename ++ "~")%string
      ; (basename ++ ".bak")%string
      ; (basename ++ ".orig")%string ]) /\
  (forall basename, length (Mangle basename) = length mangleRules) /\
  length mangleRules = 4%nat /\
  Mangle "" = [ "..swp"; "~"; ".bak"; ".orig" ] /\
  Mangle "config" = [ ".config.swp"; "config~"; "config.bak"; "config.orig" ].
Proof.
  split; [|split; [|repeat split]].
  - intros basename. reflexivity.
  - intros basename. apply length_map.
Qed.

(* ------------------------------------------------------------------ *)
(** ** More on one fetch attempt *)
(* ------------------------------------------------------------------ *)

Lemma sleeps_app (a b : list Event) : sleeps (a ++ b) = sleeps a ++ sleeps b.
Proof. apply flat_map_app. Qed.

Lemma handles_app (a b : list Event) : handles (a ++ b) = handles a ++ handles b.
Proof. apply flat_map_app. Qed.

Ltac split_all :=
  rewrite ?requests_app, ?emitted_app, ?adds_app, ?dones_app, ?closes_app,
    ?sleeps_app, ?handles_app.

Section MoreOnAttempts.

Context {C P : Type} {transport : client.Client C} {pw : PageWorker P}
        {ext : util.HasExtension}.

Implicit Types (w : Worker C P) (task u : url.URL) (f : client.Fetch).

Lemma TryURL_requests w task : requests (events (TryURL task w)) = [task].
Proof.
  destruct (TryURL_cases w task); cbn [events snd];
    try reflexivity; split_trace; cbn; trace_pieces.
Qed.

Lemma sleepEvents_sleeps w :
  map EvSleep (sleeps (sleepEvents w)) = sleepEvents w.
Proof. unfold sleepEvents. destruct (_ =? 0); reflexivity. Qed.

(** X1.  A call of [TryURL] panics exactly when the fetch came back without a
    response and was not a real failure; it has then made its request
    and nothing else.  Every other call returns. *)
Theorem TryURL_panics_iff_unanswered w task :
  match outcome (TryURL task w) with
  | Returned _ => answered (snd (client.RequestURL (client w) task)) = true
  | Panicked _ =>
      answered (snd (client.RequestURL (client w) task)) = false /\
      events (TryURL task w) = [EvRequest task]
  end.
Proof.
  destruct (TryURL_cases w task) as [c f e Hreq He Hc|c f r Hreq Hf Hr|c f msg Hreq Hf Hr];
    rewrite Hreq; cbn [outcome events fst snd]; unfold answered.
  - destruct (client.resp f); [reflexivity|].
    unfold realFailure. now rewrite He, Hc.
  - now rewrite Hr.
  - rewrite Hr, Hf. now split.
Qed.

(** X2.  Every call of [TryURL] makes exactly one request, for the URL it was
    given.  A call that returns has sent exactly one Result Record, for
    that URL, and has returned true exactly when the record has no error
    and a spiderable code; a call that panics has sent none. *)
Theorem TryURL_one_request_one_record w task :
  requests (events (TryURL task w)) = [task] /\
  match outcome (TryURL task w) with
  | Returned b =>
      exists r, emitted (events (TryURL task w)) = [r] /\
                results.URL r = task /\
                continues (ss.SpiderCodes (settings w)) r = b
  | Panicked _ => emitted (events (TryURL task w)) = []
  end.
Proof.
  split; [apply TryURL_requests|].
  destruct (TryURL_cases w task) as [c f e Hreq He Hc|c f r Hreq Hf Hr|c f msg Hreq Hf Hr];
    cbn [outcome events fst snd].
  - exists (failureResult task f e).
    repeat split; split_trace; cbn; trace_pieces.
  - exists (successResult task f r).
    split; [split_trace; cbn; trace_pieces|].
    split; [reflexivity | apply KeepSpidering_continues].
  - reflexivity.
Qed.

(** X3.  The pacing of [TryURL]: a call that returns has slept once, for
    [settings.SleepTime], unless that is zero; a call that panics has
    not slept.  The sleep comes after everything but the deferred close
    of the body, which is the last thing a call does, at most once. *)
Theorem TryURL_pause_then_close w task :
  sleeps (events (TryURL task w)) =
    match outcome (TryURL task w) with
    | Returned _ =>
        if ss.SleepTime (settings w) =? 0 then []
        else [ss.SleepTime (settings w)]
    | Panicked _ => []
    end /\
  (length (closes (events (TryURL task w))) <= 1)%nat /\
  exists pre,
    events (TryURL task w) =
      pre ++ map EvSleep (sleeps (events (TryURL task w)))
          ++ map EvClose (closes (events (TryURL task w))) /\
    sleeps pre = [] /\ closes pre = [].
Proof.
  destruct (TryURL_cases w task) as [c f e Hreq He Hc|c f r Hreq Hf Hr|c f msg Hreq Hf Hr];
    cbn [outcome events fst snd].
  - split; [split_all; cbn; trace_pieces|].
    split; [split_all; cbn; trace_pieces; cbn; lia|].
    exists [EvRequest task; EvResult (failureResult task f e)].
    repeat split; split_all; cbn; trace_pieces.
  - split; [split_all; cbn; trace_pieces|].
    split; [split_all; cbn; trace_pieces; cbn; lia|].
    exists ([EvRequest task] ++ spiderAdds w task r ++ redirectAdds f
              ++ pageEvents w task r ++ [EvResult (successResult task f r)]).
    repeat split; split_all; cbn; trace_pieces.
  - split; [reflexivity|]. split; [cbn; lia|].
    exists [EvRequest task]. now repeat split.
Qed.


End MoreOnAttempts.

(* ------------------------------------------------------------------ *)
(** ** Properties that pass through sequencing *)
(* ------------------------------------------------------------------ *)

Section Passing.

Context {C P : Type}.

Implicit Types (w : Worker C P).

Lemma bind_panics {A B : Type} (m : M (Worker C P) A)
      (k : A -> M (Worker C P) B) w msg :
  outcome (m w) = Panicked msg ->
  bind m k w = (Panicked msg, final (m w), events (m w)).
Proof.
  intros H. unfold bind. destruct (m w) as [[[a|msg'] w1] ev1];
    cbn in H; [discriminate|]. now injection H as ->.
Qed.

Lemma bounded_ret {A : Type} (a : A) : bounded (W := Worker C P) 0 (ret a).
Proof. intros w. cbn. lia. Qed.

Lemma bounded_emit_done (n : Z) : bounded (W := Worker C P) 0 (emit (EvDone n)).
Proof. intros w. cbn. lia. Qed.

Lemma bounded_le {A : Type} (n n' : nat) (m : M (Worker C P) A) :
  (n <= n')%nat -> bounded n m -> bounded n' m.
Proof. intros Hle Hm w. specialize (Hm w). lia. Qed.

Lemma bounded_bind {A B : Type} (a b : nat) (m : M (Worker C P) A)
      (k : A -> M (Worker C P) B) :
  bounded a m -> (forall x, bounded b (k x)) -> bounded (a + b) (bind m k).
Proof.
  intros Hm Hk w. specialize (Hm w). unfold bind.
  destruct (m w) as [[[x|msg] w1] ev1]; cbn [events snd] in *; [|lia].
  specialize (Hk x w1). destruct (k x w1) as [[o w2] ev2].
  cbn [events snd] in *. rewrite requests_app, length_app. lia.
Qed.

Lemma bounded_when (n : nat) (b : bool) (m : M (Worker C P) unit) :
  bounded n m -> bounded n (when b m).
Proof.
  destruct b; [trivial|]. intros _. apply (bounded_le 0); [lia|].
  apply bounded_ret.
Qed.

Lemma bounded_forRange {A : Type} (n : nat) (l : list A)
      (body : A -> M (Worker C P) unit) :
  (forall x, bounded n (body x)) -> bounded (length l * n) (forRange l body).
Proof.
  intros H. induction l as [|x l IH]; [apply bounded_ret|].
  cbn [forRange length Nat.mul]. apply bounded_bind; [apply H|].
  intros _. exact IH.
Qed.

Lemma keeps_ret {A : Type} (a : A) : keeps (C := C) (P := P) (ret a).
Proof. intros w. now split. Qed.

Lemma keeps_emit (e : Event) : keeps (C := C) (P := P) (emit e).
Proof. intros w. now split. Qed.

Lemma keeps_bind {A B : Type} (m : M (Worker C P) A) (k : A -> M (Worker C P) B) :
  keeps m -> (forall x, keeps (k x)) -> keeps (bind m k).
Proof.
  intros Hm Hk w. specialize (Hm w). unfold bind.
  destruct (m w) as [[[x|msg] w1] ev1]; cbn [final fst snd] in *; [|exact Hm].
  specialize (Hk x w1). destruct (k x w1) as [[o w2] ev2].
  cbn [final fst snd] in *. destruct Hm as [<- <-]. exact Hk.
Qed.

Lemma keeps_when (b : bool) (m : M (Worker C P) unit) :
  keeps m -> keeps (when b m).
Proof. destruct b; [trivial | intros _; apply keeps_ret]. Qed.

Lemma keeps_forRange {A : Type} (l : list A) (body : A -> M (Worker C P) unit) :
  (forall x, keeps (body x)) -> keeps (forRange l body).
Proof.
  intros H. induction l as [|x l IH]; [apply keeps_ret|].
  cbn [forRange]. apply keeps_bind; [apply H | intros _; exact IH].
Qed.

Lemma sameView_refl w : sameView w w.
Proof. now split. Qed.

Lemma agree_ret {A : Type} (a : A) : agree (C := C) (P := P) (ret a).
Proof. intros w w' H. split; [reflexivity|]. split; [reflexivity | exact H]. Qed.

Lemma agree_emit (e : Event) : agree (C := C) (P := P) (emit e).
Proof. intros w w' H. split; [reflexivity|]. split; [reflexivity | exact H]. Qed.

Lemma agree_bind {A B : Type} (m : M (Worker C P) A) (k : A -> M (Worker C P) B) :
  agree m -> (forall x, agree (k x)) -> agree (bind m k).
Proof.
  intros Hm Hk w w' Hv. destruct (Hm w w' Hv) as (Ho & He & Hf).
  unfold bind.
  destruct (m w) as [[[x|msg] w1] ev1]; destruct (m w') as [[[x'|msg'] w1'] ev1'];
    cbn [outcome final events fst snd] in *; try discriminate.
  - injection Ho as <-. subst ev1'.
    destruct (Hk x w1 w1' Hf) as (Ko & Ke & Kf).
    destruct (k x w1) as [[o w2] ev2]; destruct (k x w1') as [[o' w2'] ev2'].
    cbn [outcome final events fst snd] in *. subst.
    split; [reflexivity|]. split; [reflexivity | exact Kf].
  - injection Ho as <-. split; [reflexivity|]. split; [exact He | exact Hf].
Qed.

Lemma agree_when (b : bool) (m : M (Worker C P) unit) :
  agree m -> agree (when b m).
Proof. destruct b; [trivial | intros _; apply agree_ret]. Qed.

Lemma agree_forRange {A : Type} (l : list A) (body : A -> M (Worker C P) unit) :
  (forall x, agree (body x)) -> agree (forRange l body).
Proof.
  intros H. induction l as [|x l IH]; [apply agree_ret|].
  cbn [forRange]. apply agree_bind; [apply H | intros _; exact IH].
Qed.

End Passing.

(* ------------------------------------------------------------------ *)
(** ** More on the fan-out *)
(* ------------------------------------------------------------------ *)

Section MoreOnFanout.

Context {C P : Type} {transport : client.Client C} {pw : PageWorker P}
        {ext : util.HasExtension}.

Implicit Types (w : Worker C P) (task u : url.URL) (f : client.Fetch).

Lemma keeps_get : keeps (C := C) (P := P) get.
Proof. intros w. now split. Qed.

Lemma keeps_TryURL task : keeps (TryURL task).
Proof. intros w. destruct (TryURL_cases w task); now split. Qed.

Lemma keeps_TryMangleURL task : keeps (TryMangleURL task).
Proof.
  unfold TryMangleURL. apply keeps_bind; [apply keeps_get|]. intros w0.
  destruct (negb _); [apply keeps_ret|]. cbv zeta.
  destruct (_ =? -1); [apply keeps_ret|].
  apply keeps_forRange. intros x.
  apply keeps_bind; [apply keeps_TryURL | intros _; apply keeps_ret].
Qed.

Lemma keeps_attemptWithMangle u : keeps (attemptWithMangle u).
Proof.
  apply keeps_bind; [apply keeps_TryURL|].
  intros b. apply keeps_when, keeps_TryMangleURL.
Qed.

Lemma keeps_HandleURL task : keeps (HandleURL task).
Proof.
  unfold HandleURL. apply keeps_bind; [apply keeps_TryURL|]. intros b.
  apply keeps_bind; [|intros _; apply keeps_emit].
  apply keeps_when. apply keeps_bind; [apply keeps_when, keeps_TryMangleURL|].
  intros _. apply keeps_bind; [apply keeps_get|]. intros w0.
  apply keeps_when, keeps_forRange. intros e.
  apply keeps_bind; [apply keeps_TryURL|].
  intros b'. apply keeps_when, keeps_TryMangleURL.
Qed.

Lemma bounded_TryURL task : bounded 1 (TryURL task).
Proof. intros w. rewrite TryURL_requests. cbn. lia. Qed.

Lemma bounded_TryMangleURL task : bounded 4 (TryMangleURL task).
Proof.
  intros w. rewrite TryMangleURL_run.
  destruct (negb _); [cbn; lia|].
  destruct (splitLastSlash _) as [[d b]|]; [|cbn; lia].
  apply (bounded_forRange 1 (Mangle b)). intros x.
  apply (bounded_bind 1 0); [apply bounded_TryURL | intros _; apply bounded_ret].
Qed.

Lemma bounded_attemptWithMangle u : bounded 5 (attemptWithMangle u).
Proof.
  apply (bounded_bind 1 4); [apply bounded_TryURL|].
  intros b. apply bounded_when, bounded_TryMangleURL.
Qed.

Lemma extensionAttempts_bound task w :
  (length (requests (events (bind (extensionAttempts task)
                                  (fun _ => emit (EvDone 1)) w)))
   <= length (ss.Extensions (settings w)) * 5)%nat.
Proof.
  destruct (util.URLHasExtension task) eqn:Hx.
  - assert (E : bind (extensionAttempts task) (fun _ => emit (EvDone 1)) w
                = bind (ret tt) (fun _ => emit (EvDone 1)) w).
    { apply bind_cong. unfold extensionAttempts. now rewrite Hx. }
    rewrite E. cbn. lia.
  - assert (E : bind (extensionAttempts task) (fun _ => emit (EvDone 1)) w
                = bind (forRange (ss.Extensions (settings w))
                                 (fun e => attemptWithMangle (extVariant task e)))
                       (fun _ => emit (EvDone 1)) w).
    { apply bind_cong. unfold extensionAttempts. now rewrite Hx. }
    rewrite E.
    pose proof (bounded_bind (length (ss.Extensions (settings w)) * 5) 0
                  (forRange (ss.Extensions (settings w))
                            (fun e => attemptWithMangle (extVariant task e)))
                  (fun _ => emit (EvDone 1))
                  (bounded_forRange 5 _ _
                     (fun e => bounded_attemptWithMangle (extVariant task e)))
                  (fun _ => bounded_emit_done 1) w) as H.
    lia.
Qed.

(** Sequencing only ever adds events at the end. *)
Lemma bind_events_prefix {A B : Type} (m : M (Worker C P) A)
      (k : A -> M (Worker C P) B) w :
  exists rest, events (bind m k w) = events (m w) ++ rest.
Proof.
  unfold bind. destruct (m w) as [[[x|msg] w1] ev1]; cbn [events snd].
  - destruct (k x w1) as [[o w2] ev2]. now exists ev2.
  - exists []. now rewrite app_nil_r.
Qed.

(** X9.  The fan-out of one dequeued URL is bounded, on any transport: at
    least the request of the URL itself, at most five requests (an
    attempt and its four mangle attempts) for the URL and for each
    configured extension. *)
Theorem HandleURL_fanout_bound w task :
  (1 <= length (requests (events (HandleURL task w))))%nat /\
  (length (requests (events (HandleURL task w)))
   <= 5 * (1 + length (ss.Extensions (settings w))))%nat.
Proof.
  split.
  - unfold HandleURL.
    destruct (bind_events_prefix (TryURL task)
                (fun withMangle =>
                   bind (when (negb (util.URLIsDir task))
                           (bind (when withMangle (TryMangleURL task))
                              (fun _ => bind get (fun w0 =>
                                 when (negb (util.URLHasExtension task))
                                   (forRange (ss.Extensions (settings w0))
                                      (fun e =>
                                         bind (TryURL (url.withPath task
                                                 (url.Path task ++ "." ++ e)%string))
                                              (fun b => when b
                                                 (TryMangleURL (url.withPath task
                                                    (url.Path task ++ "." ++ e)%string)))))))))
                        (fun _ => emit (EvDone 1))) w) as [rest ->].
    rewrite requests_app, TryURL_requests. cbn. lia.
  - rewrite HandleURL_run. destruct (util.URLIsDir task).
    + pose proof (bounded_bind 1 0 (TryURL task) (fun _ => emit (EvDone 1))
                    (bounded_TryURL task) (fun _ => bounded_emit_done 1) w).
      lia.
    + pose proof (bounded_attemptWithMangle task w) as H1.
      pose proof (proj1 (keeps_attemptWithMangle task w)) as Hs.
      unfold bind at 1.
      destruct (attemptWithMangle task w) as [[[x|msg] w1] ev1];
        cbn [events final fst snd] in *; [|lia].
      pose proof (extensionAttempts_bound task w1) as H2. rewrite Hs in H2.
      destruct (bind (extensionAttempts task) _ w1) as [[o w2] ev2].
      cbn [events snd] in *. rewrite requests_app, length_app. lia.
Qed.

(** X6.  [HandleURL] leaves the worker's settings and page worker as they
    were, on any transport and however the call ends. *)
Theorem HandleURL_keeps_settings w task :
  settings (final (HandleURL task w)) = settings w /\
  pageWorker (final (HandleURL task w)) = pageWorker w.
Proof. apply keeps_HandleURL. Qed.

Lemma done_last_after_quiet {A : Type} (m : M (Worker C P) A) w :
  quiet m ->
  match outcome (bind m (fun _ => emit (EvDone 1)) w) with
  | Returned _ =>
      exists ev, events (bind m (fun _ => emit (EvDone 1)) w) = ev ++ [EvDone 1] /\
                 dones ev = []
  | Panicked _ => dones (events (bind m (fun _ => emit (EvDone 1)) w)) = []
  end.
Proof.
  intros Hm. specialize (Hm w). unfold bind, emit.
  destruct (m w) as [[[a|msg] w1] ev1]; cbn [outcome events fst snd] in *.
  - now exists ev1.
  - exact Hm.
Qed.

(** X7.  The done signal is the last thing [HandleURL] does: when the call
    returns, every request, Result Record, enqueue and close of the
    URL's fan-out has come before the one [done(1)]. *)
Theorem HandleURL_done_last w task :
  match outcome (HandleURL task w) with
  | Returned _ =>
      exists ev, events (HandleURL task w) = ev ++ [EvDone 1] /\ dones ev = []
  | Panicked _ => dones (events (HandleURL task w)) = []
  end.
Proof.
  rewrite HandleURL_run. destruct (util.URLIsDir task).
  - apply done_last_after_quiet, TryURL_quiet.
  - rewrite <- bind_assoc. apply done_last_after_quiet.
    apply quiet_bind; [apply attemptWithMangle_quiet|].
    intros _. apply extensionAttempts_quiet.
Qed.

(** X8.  A directory-style URL is fetched once and never mangled or
    extension-suffixed, whatever the fetch brings (a status that is not
    spiderable, a failure, a panic). *)
Theorem HandleURL_directory_one_request w task :
  strings.HasSuffixByte (url.Path task) "/" = true ->
  requests (events (HandleURL task w)) = [task] /\
  (length (emitted (events (HandleURL task w))) <= 1)%nat.
Proof.
  intros Hdir. assert (Hd : util.URLIsDir task = true) by exact Hdir.
  rewrite HandleURL_run, Hd.
  pose proof (TryURL_requests w task) as Hq.
  pose proof (TryURL_cases w task) as Hc.
  unfold bind, emit.
  destruct (TryURL task w) as [[[b|msg] w1] ev1]; cbn [events snd] in *.
  - rewrite requests_app, emitted_app, Hq. split; [reflexivity|].
    cbn. rewrite app_nil_r.
    inversion Hc; subst; split_trace; cbn; trace_pieces; cbn; lia.
  - split; [exact Hq|]. inversion Hc; subst. cbn. lia.
Qed.

(** X5.  Whatever the transport does, [TryMangleURL] requests mangle variants
    of its task only, in rule order: all of them when it returns, and at
    least the first when an attempt panics. *)
Theorem TryMangleURL_prefix w task :
  match outcome (TryMangleURL task w) with
  | Returned _ =>
      requests (events (TryMangleURL task w)) = mangleTargets (settings w) task
  | Panicked _ =>
      exists k, requests (events (TryMangleURL task w))
                = firstn (S k) (mangleTargets (settings w) task)
  end.
Proof.
  rewrite TryMangleURL_run. unfold mangleTargets.
  destruct (ss.Mangle (settings w)); cbn [negb]; [|reflexivity].
  destruct (splitLastSlash (url.Path task)) as [[d b]|]; [|reflexivity].
  unfold mangleVariants.
  generalize (Mangle b) as l. intros l. revert w.
  induction l as [|x l IH]; intros w; [reflexivity|].
  cbn [forRange map].
  set (u := url.withPath task (d ++ "/" ++ x)%string).
  pose proof (TryURL_requests w u) as Hq.
  destruct (outcome (TryURL u w)) as [b0|msg] eqn:Ho.
  - assert (Hbody : bind (TryURL u) (fun _ => ret tt) w
                    = (Returned tt, final (TryURL u w), events (TryURL u w) ++ []))
      by (rewrite (bind_run _ _ w b0 Ho); reflexivity).
    rewrite (bind_returned _ _ _ _ _ _ Hbody).
    cbn [outcome events fst snd]. specialize (IH (final (TryURL u w))).
    rewrite app_nil_r, requests_app, Hq.
    destruct (outcome (forRange l _ (final (TryURL u w)))).
    + now rewrite IH.
    + destruct IH as [k ->]. now exists (S k).
  - assert (Hbody : bind (TryURL u) (fun _ => ret tt) w
                    = (Panicked msg, final (TryURL u w), events (TryURL u w)))
      by (apply bind_panics, Ho).
    assert (Ho2 : outcome (bind (TryURL u) (fun _ => ret tt) w) = Panicked msg)
      by now rewrite Hbody.
    rewrite (bind_panics _ _ w msg Ho2), Hbody.
    cbn [outcome final events fst snd]. exists 0%nat. exact Hq.
Qed.

End MoreOnFanout.

(* ------------------------------------------------------------------ *)
(** ** The candidates and the variants *)
(* ------------------------------------------------------------------ *)

Lemma string_app_assoc (a b c : string) :
  ((a ++ b) ++ c)%string = (a ++ (b ++ c))%string.
Proof. induction a as [|x a IH]; simpl; [reflexivity | now rewrite IH]. Qed.

Lemma string_app_inj (x y s t : string) :
  String.length x = String.length y ->
  (x ++ s)%string = (y ++ t)%string -> x = y /\ s = t.
Proof.
  revert y. induction x as [|a x IH]; intros [|b y] Hl H;
    simpl in Hl; try discriminate.
  - now split.
  - simpl in H. injection H as -> H. injection Hl as Hl.
    destruct (IH y Hl H) as [-> ->]. now split.
Qed.

Lemma ContainsByte_app (x y : string) (c : ascii) :
  strings.ContainsByte (x ++ y)%string c
  = strings.ContainsByte x c || strings.ContainsByte y c.
Proof.
  induction x as [|a x IH]; simpl; [reflexivity|].
  now rewrite IH, orb_assoc.
Qed.

Lemma Mangle_shape (basename : string) :
  Mangle basename =
  [ String "." (basename ++ ".swp"); (basename ++ "~")%string;
    (basename ++ ".bak")%string; (basename ++ ".orig")%string ].
Proof. reflexivity. Qed.

Ltac string_len :=
  repeat first [rewrite string_length_app | progress (cbn [String.length append])].

Ltac by_length H :=
  apply (f_equal String.length) in H; revert H; string_len; lia.

(** X13.  The four candidates of a basename are pairwise different and none
    is the basename itself; and a basename without "/" has candidates
    without "/". *)
Theorem Mangle_candidates_distinct (basename : string) :
  NoDup (Mangle basename) /\
  ~ In basename (Mangle basename) /\
  (strings.ContainsByte basename "/" = false ->
   Forall (fun n => strings.ContainsByte n "/" = false) (Mangle basename)).
Proof.
  rewrite Mangle_shape. split; [|split].
  - repeat constructor; cbn [In]; intros H;
      repeat (destruct H as [H|H]); try contradiction; try (by_length H).
    change (String "." (basename ++ ".swp"))
      with (("." ++ basename) ++ ".swp")%string in H.
    replace (basename ++ ".orig")%string
      with ((basename ++ ".") ++ "orig")%string in H
      by (now rewrite string_app_assoc).
    symmetry in H. apply string_app_inj in H; [destruct H; discriminate|].
    string_len. lia.
  - cbn [In]. intros H.
    repeat (destruct H as [H|H]); try contradiction; by_length H.
  - intros Hb. repeat constructor; cbn [strings.ContainsByte];
      rewrite ?ContainsByte_app, Hb; reflexivity.
Qed.

(** X14.  The split of a path at its last "/" loses nothing: when
    [strings.LastIndex] finds one, the index is inside the path, the
    directory part, "/" and the basename part put together give the path
    back, and the basename part has no "/".  It finds none exactly when
    the path has none. *)
Theorem path_split_lossless (p : string) :
  (strings.LastIndexByte p "/" = -1 <-> strings.ContainsByte p "/" = false) /\
  (strings.LastIndexByte p "/" <> -1 ->
   0 <= strings.LastIndexByte p "/" < strings.len p /\
   (strings.slice p 0 (strings.LastIndexByte p "/") ++ "/"
      ++ strings.slice p (strings.LastIndexByte p "/" + 1) (strings.len p))%string
     = p /\
   strings.ContainsByte
     (strings.slice p (strings.LastIndexByte p "/" + 1) (strings.len p)) "/"
     = false).
Proof.
  destruct (splitLastSlash p) as [[d b]|] eqn:E.
  - destruct (splitLastSlash_sound _ _ _ E) as [-> Hb].
    rewrite (LastIndexByte_app d b _ Hb), slice_dirname, slice_basename.
    assert (Hc : strings.ContainsByte (d ++ String "/" b) "/" = true).
    { rewrite ContainsByte_app. cbn. apply orb_true_r. }
    assert (Hl : 0 <= strings.len d < strings.len (d ++ String "/" b)).
    { unfold strings.len. rewrite string_length_app. cbn [String.length]. lia. }
    split.
    + split; intros H; [lia | rewrite Hc in H; discriminate].
    + intros _. now repeat split.
  - pose proof (splitLastSlash_none _ E) as Hc.
    rewrite (LastIndexByte_absent _ _ Hc). split; [now split|].
    intros H. now elim H.
Qed.

Section MoreOnVariants.

Context {C P : Type} {transport : client.Client C} {pw : PageWorker P}
        {ext : util.HasExtension}.

Implicit Types (w : Worker C P) (task u : url.URL) (f : client.Fetch).

Lemma derived_trans (a b c : url.URL) : derived a b -> derived b c -> derived a c.
Proof.
  intros (S1 & H1 & Q1 & L1) (S2 & H2 & Q2 & L2). unfold derived.
  rewrite S2, H2, Q2. repeat split; try assumption. lia.
Qed.

Lemma extVariant_derived task e : derived task (extVariant task e).
Proof.
  unfold derived, extVariant. cbn. repeat split. string_len. lia.
Qed.

Lemma mangleTargets_derived (s : ss.ScanSettings) u :
  Forall (derived u) (mangleTargets s u).
Proof.
  unfold mangleTargets. destruct (ss.Mangle s); [|constructor].
  destruct (splitLastSlash (url.Path u)) as [[d b]|] eqn:E; [|constructor].
  destruct (splitLastSlash_sound _ _ _ E) as [Hp _].
  unfold mangleVariants. rewrite Mangle_shape. cbn [map].
  repeat constructor; cbn [url.withPath url.Scheme url.Host url.RawQuery url.Path];
    try reflexivity; rewrite Hp; string_len; lia.
Qed.

Lemma block_requests (s : ss.ScanSettings) u (block : list results.Result) :
  attemptBlock s u block ->
  exists rest, map results.URL block = u :: rest /\ Forall (derived u) rest.
Proof.
  intros [r Hu _|r ms Hu _ Hms].
  - exists []. cbn. now rewrite Hu.
  - exists (mangleTargets s u). cbn [map]. rewrite Hu, Hms.
    split; [reflexivity | apply mangleTargets_derived].
Qed.

Lemma blocks_derived (s : ss.ScanSettings) task (us : list url.URL)
      (blocks : list (list results.Result)) :
  Forall2 (attemptBlock s) us blocks ->
  Forall (derived task) us ->
  Forall (derived task) (map results.URL (concat blocks)).
Proof.
  induction 1 as [|u block us blocks Hb _ IH]; intros Hus; [constructor|].
  inversion Hus as [|? ? Hu Hus']; subst.
  cbn [concat]. rewrite map_app. apply Forall_app. split; [|now apply IH].
  destruct (block_requests s u block Hb) as (rest & -> & Hrest).
  constructor; [exact Hu|].
  apply (Forall_impl _ (fun v Hv => derived_trans task u v Hu Hv) Hrest).
Qed.

(** X10.  On a transport that keeps its promise, the requests of [HandleURL]
    are the URL itself, first, and then only URLs derived from it: same
    scheme, host and query, and a strictly longer path.  So no variant is
    the URL again. *)
Theorem HandleURL_variants_derived (HT : TransportAnswers C) w task :
  exists rest,
    requests (events (HandleURL task w)) = task :: rest /\
    Forall (derived task) rest.
Proof.
  destruct (util.URLIsDir task) eqn:Hd.
  - exists []. split; [|constructor].
    rewrite HandleURL_run, Hd.
    destruct (TryURL_returns HT w task) as (b & r & Ho & Hq & _).
    rewrite (bind_run _ _ w b Ho). cbn [events snd emit].
    now rewrite requests_app, Hq.
  - destruct (HandleURL_leaf HT w task Hd)
      as (_ & (first & blocks & He & Hfirst & Hblocks) & Hq).
    rewrite Hq, He, map_app.
    destruct (block_requests _ _ _ Hfirst) as (rest & -> & Hrest).
    exists (rest ++ map results.URL (concat blocks)).
    split; [reflexivity|]. apply Forall_app. split; [exact Hrest|].
    apply (blocks_derived _ _ _ _ Hblocks).
    destruct (util.URLHasExtension task); [constructor|].
    apply Forall_forall. intros v Hv. apply in_map_iff in Hv as (e & <- & _).
    apply extVariant_derived.
Qed.

Lemma block_plain_requests (s : ss.ScanSettings) u (block : list results.Result) :
  ss.Mangle s = false \/ ss.SpiderCodes s = [] ->
  attemptBlock s u block -> map results.URL block = [u].
Proof.
  intros Hoff [r Hu _|r ms Hu Hc Hms]; [cbn; now rewrite Hu|].
  destruct Hoff as [Hm|Hs].
  - unfold mangleTargets in Hms. rewrite Hm in Hms.
    cbn [map]. now rewrite Hu, Hms.
  - rewrite Hs in Hc. unfold continues in Hc.
    destruct (results.Error r); discriminate.
Qed.

Lemma blocks_plain_requests (s : ss.ScanSettings) (us : list url.URL)
      (blocks : list (list results.Result)) :
  ss.Mangle s = false \/ ss.SpiderCodes s = [] ->
  Forall2 (attemptBlock s) us blocks ->
  map results.URL (concat blocks) = us.
Proof.
  intros Hoff. induction 1 as [|u block us blocks Hb _ IH]; [reflexivity|].
  cbn [concat]. now rewrite map_app, (block_plain_requests s u block Hoff Hb), IH.
Qed.

(** X11.  With mangling switched off, or with no spiderable code configured,
    [HandleURL] (on a transport that keeps its promise) requests the URL
    and, if it is neither directory-style nor carries an extension, its
    extension variants in order; nothing else. *)
Theorem HandleURL_without_mangling (HT : TransportAnswers C) w task :
  ss.Mangle (settings w) = false \/ ss.SpiderCodes (settings w) = [] ->
  requests (events (HandleURL task w)) =
  task :: (if util.URLIsDir task || util.URLHasExtension task then []
           else map (extVariant task) (ss.Extensions (settings w))).
Proof.
  intros Hoff. destruct (util.URLIsDir task) eqn:Hd; cbn [orb].
  - rewrite HandleURL_run, Hd.
    destruct (TryURL_returns HT w task) as (b & r & Ho & Hq & _).
    rewrite (bind_run _ _ w b Ho). cbn [events snd emit].
    now rewrite requests_app, Hq.
  - destruct (HandleURL_leaf HT w task Hd)
      as (_ & (first & blocks & He & Hfirst & Hblocks) & Hq).
    rewrite Hq, He, map_app, (block_plain_requests _ _ _ Hoff Hfirst),
      (blocks_plain_requests _ _ _ Hoff Hblocks).
    reflexivity.
Qed.

Lemma TryURL_nil_panic w task c f :
  client.RequestURL (client w) task = (c, f) ->
  realFailure f = false ->
  client.resp f = None ->
  TryURL task w =
  (Panicked "invalid memory address or nil pointer dereference",
   after w c f, [EvRequest task]).
Proof.
  intros Hreq Hf Hr.
  unfold TryURL, bind, get, put, callRequestURL, after, realFailure in *.
  cbn [setRedir client settings pageWorker redir]. rewrite Hreq.
  rewrite handlers_run. cbn [setRedir setClient client settings pageWorker redir].
  destruct (client.err f) as [e|] eqn:He;
    destruct (client.checked f) as [|q0 l] eqn:Hc; try discriminate;
    destruct (lastOf _) as [q|] eqn:Hl;
    try (apply lastOf_nil_iff in Hl; discriminate);
    try discriminate;
    rewrite Hr; reflexivity.
Qed.

Lemma agree_TryURL (HS : Stateless C) task : agree (TryURL task).
Proof.
  intros w w' [Hs Hp].
  destruct (client.RequestURL (client w) task) as [c f] eqn:Hreq.
  destruct (client.RequestURL (client w') task) as [c' f'] eqn:Hreq'.
  assert (Hff : f' = f).
  { pose proof (HS (client w') (client w) task) as H.
    now rewrite Hreq, Hreq' in H. }
  subst f'.
  assert (Hv : sameView (after w c f) (after w' c' f)) by (now split).
  destruct (realFailure f) eqn:Hf.
  - destruct (realFailure_true f Hf) as (e & He & Hc).
    rewrite (TryURL_failure w task c f e Hreq He Hc),
      (TryURL_failure w' task c' f e Hreq' He Hc).
    cbn [outcome final events fst snd]. unfold sleepEvents. rewrite Hs.
    now repeat split.
  - destruct (client.resp f) as [r|] eqn:Hr.
    + rewrite (TryURL_success w task c f r Hreq Hf Hr),
        (TryURL_success w' task c' f r Hreq' Hf Hr).
      cbn [outcome final events fst snd].
      unfold sleepEvents, spiderAdds, pageEvents, KeepSpidering.
      rewrite Hs, Hp. now repeat split.
    + rewrite (TryURL_nil_panic w task c f Hreq Hf Hr),
        (TryURL_nil_panic w' task c' f Hreq' Hf Hr).
      now repeat split.
Qed.

Lemma agree_TryMangleURL (HS : Stateless C) task : agree (TryMangleURL task).
Proof.
  intros w w' Hv. rewrite !TryMangleURL_run. destruct Hv as [Hs Hp].
  rewrite Hs. destruct (negb _); [now repeat split|].
  destruct (splitLastSlash _) as [[d b]|]; [|now repeat split].
  apply agree_forRange; [|now split]. intros x.
  apply agree_bind; [apply agree_TryURL, HS | intros _; apply agree_ret].
Qed.

Lemma agree_attemptWithMangle (HS : Stateless C) u : agree (attemptWithMangle u).
Proof.
  apply agree_bind; [apply agree_TryURL, HS|].
  intros b. apply agree_when, agree_TryMangleURL, HS.
Qed.

Lemma agree_extensionAttempts (HS : Stateless C) task :
  agree (extensionAttempts task).
Proof.
  intros w w' Hv. unfold extensionAttempts.
  destruct (util.URLHasExtension task); [now apply agree_ret|].
  rewrite (proj1 Hv). apply agree_forRange; [|exact Hv].
  intros e. apply agree_attemptWithMangle, HS.
Qed.

Lemma agree_HandleURL (HS : Stateless C) task : agree (HandleURL task).
Proof.
  intros w w' Hv. rewrite !HandleURL_run. destruct (util.URLIsDir task).
  - apply agree_bind; [apply agree_TryURL, HS | intros _; apply agree_emit | exact Hv].
  - apply agree_bind; [apply agree_attemptWithMangle, HS | | exact Hv].
    intros _. apply agree_bind; [apply agree_extensionAttempts, HS|].
    intros _. apply agree_emit.
Qed.

(** X12.  On a transport whose answers do not depend on its state, what
    [HandleURL] does for a URL depends on the settings and the page
    worker alone: workers that agree on those make the same calls in the
    same order and end the same way.  In particular handling the same
    URL a second time repeats the first trace, Result Records included. *)
Theorem HandleURL_repeatable (HS : Stateless C) task :
  (forall w w',
      settings w = settings w' -> pageWorker w = pageWorker w' ->
      outcome (HandleURL task w) = outcome (HandleURL task w') /\
      events (HandleURL task w) = events (HandleURL task w')) /\
  (forall w,
      events (HandleURL task (final (HandleURL task w)))
      = events (HandleURL task w)).
Proof.
  split.
  - intros w w' Hs Hp.
    destruct (agree_HandleURL HS task w w' (conj Hs Hp)) as (Ho & He & _).
    now split.
  - intros w. destruct (keeps_HandleURL task w) as [Hs Hp].
    now destruct (agree_HandleURL HS task _ w (conj Hs Hp)) as (_ & He & _).
Qed.

End MoreOnVariants.

(* ------------------------------------------------------------------ *)
(** ** The run loop and the pool *)
(* ------------------------------------------------------------------ *)

Section MoreOnPool.

Context {C P : Type} {transport : client.Client C} {pw : PageWorker P}
        {ext : util.HasExtension}.

Implicit Types (w : Worker C P) (task u : url.URL).



Context {F : Type} {factory : ClientFactory F C}.



End MoreOnPool.

(* ------------------------------------------------------------------ *)
(** ** What is fed back to the work source *)
(* ------------------------------------------------------------------ *)

Section FedBack.

Context {C P : Type} {transport : client.Client C} {pw : PageWorker P}
        {ext : util.HasExtension}.

Implicit Types (w : Worker C P) (task u : url.URL) (f : client.Fetch).

Lemma justified_nil (s : ss.ScanSettings) : justified s [].
Proof. intros u []. Qed.

Lemma justified_app (s : ss.ScanSettings) (a b : list Event) :
  justified s a -> justified s b -> justified s (a ++ b).
Proof.
  intros Ha Hb u Hu. rewrite adds_app in Hu. rewrite emitted_app.
  apply in_app_or in Hu as [Hu|Hu]; [destruct (Ha u Hu) as [(Hd & r & Hr & H)|(r & Hr & H)]
                                    |destruct (Hb u Hu) as [(Hd & r & Hr & H)|(r & Hr & H)]].
  - left. split; [exact Hd|]. exists r. split; [apply in_or_app; now left | exact H].
  - right. exists r. split; [apply in_or_app; now left | exact H].
  - left. split; [exact Hd|]. exists r. split; [apply in_or_app; now right | exact H].
  - right. exists r. split; [apply in_or_app; now right | exact H].
Qed.

Lemma accountable_ret {A : Type} (a : A) : accountable (C := C) (P := P) (ret a).
Proof. intros w. apply justified_nil. Qed.

Lemma accountable_get : accountable (C := C) (P := P) get.
Proof. intros w. apply justified_nil. Qed.

Lemma accountable_done (n : Z) : accountable (C := C) (P := P) (emit (EvDone n)).
Proof. intros w u []. Qed.

Lemma accountable_bind {A B : Type} (m : M (Worker C P) A)
      (k : A -> M (Worker C P) B) :
  accountable m -> keeps m -> (forall x, accountable (k x)) ->
  accountable (bind m k).
Proof.
  intros Hm Hkeep Hk w. specialize (Hm w). destruct (Hkeep w) as [Hs _].
  unfold bind.
  destruct (m w) as [[[x|msg] w1] ev1]; cbn [events final fst snd] in *;
    [|exact Hm].
  specialize (Hk x w1). rewrite Hs in Hk.
  destruct (k x w1) as [[o w2] ev2]. cbn [events snd] in *.
  now apply justified_app.
Qed.

Lemma accountable_when (b : bool) (m : M (Worker C P) unit) :
  accountable m -> accountable (when b m).
Proof. destruct b; [trivial | intros _; apply accountable_ret]. Qed.

Lemma accountable_forRange {A : Type} (l : list A)
      (body : A -> M (Worker C P) unit) :
  (forall x, accountable (body x)) -> (forall x, keeps (body x)) ->
  accountable (forRange l body).
Proof.
  intros H Hk. induction l as [|x l IH]; [apply accountable_ret|].
  cbn [forRange]. apply accountable_bind; [apply H | apply Hk | intros _; exact IH].
Qed.

Lemma accountable_TryURL task : accountable (TryURL task).
Proof.
  intros w u.
  destruct (TryURL_cases w task) as [c f e Hreq He Hc|c f r Hreq Hf Hr|c f msg Hreq Hf Hr];
    cbn [events snd].
  - split_trace. cbn. unfold sleepEvents. destruct (_ =? 0); intros [].
  - intros Hin.
    assert (Hadds : In u (adds (spiderAdds w task r) ++ adds (redirectAdds f))).
    { revert Hin. split_trace. cbn. unfold pageEvents, sleepEvents.
      destruct (pageWorker w) as [p|]; [destruct (Eligible p r)|];
        destruct (_ =? 0); cbn; now rewrite ?app_nil_r. }
    assert (Hrec : In (successResult task f r)
                      (emitted ([EvRequest task] ++ spiderAdds w task r
                         ++ redirectAdds f ++ pageEvents w task r
                         ++ [EvResult (successResult task f r)]
                         ++ sleepEvents w ++ [EvClose (http.Body r)]))).
    { split_trace. apply in_or_app. right. apply in_or_app. right.
      apply in_or_app. right. apply in_or_app. right.
      apply in_or_app. left. now left. }
    apply in_app_or in Hadds as [Hs|Hq].
    + left. unfold spiderAdds in Hs.
      destruct (util.URLIsDir task) eqn:Hd; cbn in Hs; [|contradiction].
      destruct (KeepSpidering w (http.StatusCode r)) eqn:Hk; cbn in Hs;
        [|contradiction].
      destruct Hs as [<-|[]]. split; [exact Hd|].
      exists (successResult task f r). split; [exact Hrec|].
      split; [reflexivity|]. now rewrite KeepSpidering_continues.
    + right. unfold redirectAdds in Hq.
      destruct (lastOf (client.checked f)) as [q|] eqn:Hl; [|contradiction].
      destruct Hq as [<-|[]].
      exists (successResult task f r). split; [exact Hrec|].
      unfold successResult. cbn. now rewrite Hl.
  - intros [].
Qed.

Lemma accountable_TryMangleURL task : accountable (TryMangleURL task).
Proof.
  unfold TryMangleURL.
  apply accountable_bind; [apply accountable_get | apply keeps_get|]. intros w0.
  destruct (negb _); [apply accountable_ret|]. cbv zeta.
  destruct (_ =? -1); [apply accountable_ret|].
  apply accountable_forRange; intros x.
  - apply accountable_bind;
      [apply accountable_TryURL | apply keeps_TryURL | intros _; apply accountable_ret].
  - apply keeps_bind; [apply keeps_TryURL | intros _; apply keeps_ret].
Qed.

(** X18.  What [HandleURL] feeds back to the work source is accounted for in
    the Result Records of the same call, on any transport: a URL it
    hands to [adder] is either directory-style with a record of its own
    that has no error and a spiderable code, or the redirect target some
    record reports.  A mangle or extension variant as such is never
    enqueued. *)
Theorem HandleURL_enqueues_justified w task u :
  In u (adds (events (HandleURL task w))) ->
  (strings.HasSuffixByte (url.Path u) "/" = true /\
   exists r, In r (emitted (events (HandleURL task w))) /\
             results.URL r = u /\ results.Error r = None /\
             In (results.Code r) (ss.SpiderCodes (settings w)))
  \/
  (exists r, In r (emitted (events (HandleURL task w))) /\
             results.Redir r = Some u).
Proof.
  intros Hu.
  assert (H : accountable (HandleURL task)).
  { unfold HandleURL.
    apply accountable_bind; [apply accountable_TryURL | apply keeps_TryURL|].
    intros b. apply accountable_bind; [| |intros _; apply accountable_done].
    - apply accountable_when. apply accountable_bind.
      + apply accountable_when, accountable_TryMangleURL.
      + apply keeps_when, keeps_TryMangleURL.
      + intros _. apply accountable_bind; [apply accountable_get | apply keeps_get|].
        intros w0. apply accountable_when, accountable_forRange; intros e.
        * apply accountable_bind; [apply accountable_TryURL | apply keeps_TryURL|].
          intros b'. apply accountable_when, accountable_TryMangleURL.
        * apply keeps_bind; [apply keeps_TryURL|].
          intros b'. apply keeps_when, keeps_TryMangleURL.
    - apply keeps_when. apply keeps_bind; [apply keeps_when, keeps_TryMangleURL|].
      intros _. apply keeps_bind; [apply keeps_get|]. intros w0.
      apply keeps_when, keeps_forRange. intros e.
      apply keeps_bind; [apply keeps_TryURL|].
      intros b'. apply keeps_when, keeps_TryMangleURL. }
  destruct (H w u Hu) as [(Hd & r & Hr & Hurl & Hc)|Hredir]; [left|now right].
  split; [exact Hd|]. exists r. split; [exact Hr|]. split; [exact Hurl|].
  unfold continues in Hc. destruct (results.Error r); [discriminate|].
  split; [reflexivity|].
  apply existsb_exists in Hc as (v & Hv & E). apply Z.eqb_eq in E. now subst.
Qed.

End FedBack.

(* ------------------------------------------------------------------ *)
(** ** Concrete runs *)
(* ------------------------------------------------------------------ *)

#[local] Existing Instance Site_Client.
#[local] Existing Instance Rogue_Client.
#[local] Existing Instance HTMLWorker_PageWorker.
#[local] Existing Instance dotAfterSlash.

(** The scripted site keeps the transport's promise. *)
Lemma Site_answers : TransportAnswers Site.
Proof.
  intros c u. unfold client.RequestURL, Site_Client. cbn [snd].
  destruct (lookupPage (url.Path u) (pages c)) as [r|r q|[r|] e]; reflexivity.
Qed.

(** C2.  The fetch of [/broken] comes back with a response (body 7) and
    an error, and no redirect: [TryURL] reports it and returns without
    closing the body.  On the other path the body is closed, last. *)
Theorem TryURL_error_response_left_open :
  client.RequestURL (client demoWorker) (at_ "/broken")
    = (mkSite (pages demoSite) 1,
       {| client.checked := [];
          client.resp := Some (response 502 7);
          client.err := Some "unexpected EOF" |}) /\
  outcome (TryURL (at_ "/broken") demoWorker) = Returned false /\
  emitted (events (TryURL (at_ "/broken") demoWorker)) =
    [ {| results.URL := at_ "/broken"; results.Code := 502;
         results.Error := Some "unexpected EOF";
         results.Redir := None; results.Length := 0 |} ] /\
  closes (events (TryURL (at_ "/broken") demoWorker)) = [] /\
  closes (events (TryURL (at_ "/admin") demoWorker)) = [1%nat].
Proof. repeat split. Qed.

Lemma TryURL_redirect_intercepted_witness :
  outcome (TryURL (at_ "/old") staleWorker) = Returned false /\
  emitted (events (TryURL (at_ "/old") staleWorker)) =
    [ {| results.URL := at_ "/old"; results.Code := 301;
         results.Error := None; results.Redir := Some (at_ "/new");
         results.Length := 120 |} ] /\
  adds (events (TryURL (at_ "/old") staleWorker)) = [at_ "/new"] /\
  redir (final (TryURL (at_ "/old") staleWorker))
    = Some {| http.URL := at_ "/new" |}.
Proof.
  exact (proj2 (proj2 TryURL_redirect_intercepted) staleWorker (at_ "/old")
               (mkSite (pages demoSite) 1)
               (fetchOf (Moved (response 301 3) {| http.URL := at_ "/new" |}))
               "Get: Stop redirect." {| http.URL := at_ "/new" |} (response 301 3)
               eq_refl eq_refl eq_refl eq_refl).
Defined.

Lemma HandleURL_done_once_witness :
  outcome (HandleURL (at_ "/admin") demoWorker) = Returned tt /\
  dones (events (HandleURL (at_ "/admin") demoWorker)) = [1].
Proof.
  apply (proj2 HandleURL_done_once).
  intros c u. unfold client.RequestURL, Site_Client. cbn [snd].
  destruct (lookupPage (url.Path u) (pages c)) as [r|r q|[r|] e]; reflexivity.
Defined.

Lemma HandleURL_directory_spidered_witness :
  outcome (HandleURL (at_ "/dir/") demoWorker) = Returned tt /\
  requests (events (HandleURL (at_ "/dir/") demoWorker)) = [at_ "/dir/"] /\
  map results.URL (emitted (events (HandleURL (at_ "/dir/") demoWorker)))
    = [at_ "/dir/"] /\
  adds (events (HandleURL (at_ "/dir/") demoWorker)) = [at_ "/dir/"].
Proof.
  apply (HandleURL_directory_spidered demoWorker (at_ "/dir/")
           (mkSite (pages demoSite) 1) (fetchOf (Served (response 200 2)))
           (response 200 2)).
  - reflexivity.
  - reflexivity.
  - reflexivity.
  - reflexivity.
  - reflexivity.
  - simpl. left. reflexivity.
Defined.

Lemma TryURL_real_failure_witness :
  outcome (TryURL (at_ "/down") staleWorker) = Returned false /\
  emitted (events (TryURL (at_ "/down") staleWorker)) =
    [ {| results.URL := at_ "/down"; results.Code := 0;
         results.Error := Some "dial tcp: connection refused";
         results.Redir := None; results.Length := 0 |} ] /\
  adds (events (TryURL (at_ "/down") staleWorker)) = [] /\
  requests (events (TryURL (at_ "/down") staleWorker)) = [at_ "/down"].
Proof.
  apply (TryURL_real_failure staleWorker (at_ "/down")
           (mkSite (pages demoSite) 1)
           (fetchOf (Failed None "dial tcp: connection refused"))
           "dial tcp: connection refused");
    reflexivity.
Defined.

Lemma HandleURL_extension_variants_witness :
  outcome (HandleURL (at_ "/admin") demoWorker) = Returned tt /\
  requests (events (HandleURL (at_ "/admin") demoWorker))
    = map results.URL (emitted (events (HandleURL (at_ "/admin") demoWorker))) /\
  (exists first blocks,
      emitted (events (HandleURL (at_ "/admin") demoWorker)) = first ++ concat blocks /\
      attemptBlock demoSettings (at_ "/admin") first /\
      Forall2 (attemptBlock demoSettings) [at_ "/admin.php"] blocks /\
      length blocks = 1%nat) /\
  (forall (w' : Worker Site HTMLWorker) u, exists r,
      emitted (events (TryURL u w')) = [r] /\
      outcome (TryURL u w')
        = Returned (continues (ss.SpiderCodes (settings w')) r)).
Proof.
  refine (HandleURL_extension_variants (ext := dotAfterSlash) _ demoWorker (at_ "/admin") _).
  - intros c u. unfold client.RequestURL, Site_Client. cbn [snd].
    destruct (lookupPage (url.Path u) (pages c)) as [r|r q|[r|] e]; reflexivity.
  - reflexivity.
Defined.

Lemma TryMangleURL_attempts_witness :
  TryMangleURL (at_ "/admin") plainWorker = (Returned tt, plainWorker, []) /\
  TryMangleURL (at_ "admin") demoWorker = (Returned tt, demoWorker, []) /\
  (outcome (TryMangleURL (at_ "/etc/config") demoWorker) = Returned tt /\
   requests (events (TryMangleURL (at_ "/etc/config") demoWorker)) =
     [ at_ "/etc/.config.swp"; at_ "/etc/config~";
       at_ "/etc/config.bak"; at_ "/etc/config.orig" ] /\
   length (requests (events (TryMangleURL (at_ "/etc/config") demoWorker)))
     = 4%nat /\
   map results.URL (emitted (events (TryMangleURL (at_ "/etc/config") demoWorker)))
     = requests (events (TryMangleURL (at_ "/etc/config") demoWorker))).
Proof.
  split; [|split].
  - apply (proj1 TryMangleURL_attempts plainWorker (at_ "/admin")). reflexivity.
  - apply (proj1 (proj2 TryMangleURL_attempts) demoWorker (at_ "admin")).
    reflexivity.
  - refine (proj2 (proj2 TryMangleURL_attempts) _ demoWorker (at_ "/etc/config")
                  "/etc" "config" _ _ _).
    + intros c u. unfold client.RequestURL, Site_Client. cbn [snd].
      destruct (lookupPage (url.Path u) (pages c)) as [r|r q|[r|] e]; reflexivity.
    + reflexivity.
    + reflexivity.
    + reflexivity.
Defined.

Lemma TryURL_returns_KeepSpidering_witness :
  exists b,
    outcome (TryURL (at_ "/old") demoWorker) = Returned b /\
    b = KeepSpidering demoWorker 301 /\
    (b = true <-> In 301 [200]).
Proof.
  apply (TryURL_returns_KeepSpidering demoWorker (at_ "/old")
           (mkSite (pages demoSite) 1)
           (fetchOf (Moved (response 301 3) {| http.URL := at_ "/new" |}))
           (response 301 3)).
  - reflexivity.
  - right. discriminate.
  - reflexivity.
Defined.

Lemma TryURL_adds_only_spider_and_redirect_witness :
  ((at_ "/dir/" = at_ "/dir/" /\
    strings.HasSuffixByte "/dir/" "/" = true /\
    exists r, Some (response 200 2) = Some r /\ In (http.StatusCode r) [200])
   \/
   (exists q, @None http.Request = Some q /\ at_ "/dir/" = http.URL q)) /\
  adds (events (TryURL (at_ "/admin") demoWorker)) = [].
Proof.
  split.
  - refine (proj1 TryURL_adds_only_spider_and_redirect demoWorker (at_ "/dir/")
                  (at_ "/dir/") _).
    simpl. left. reflexivity.
  - apply (proj2 TryURL_adds_only_spider_and_redirect demoWorker (at_ "/admin"));
      reflexivity.
Defined.

(* ------------------------------------------------------------------ *)
(** ** The specification's scenarios, run *)
(* ------------------------------------------------------------------ *)

(** [http://x/admin], extensions [php], mangling on, 200 for [/admin],
    404 for the rest, spiderable codes {200}: the raw URL, its four
    mangle variants, then [/admin.php], whose 404 ends the fan-out. *)
Example scenario_admin :
  map (fun r => (url.Path (results.URL r), results.Code r))
      (emitted (events (HandleURL (at_ "/admin") demoWorker)))
  = [ ("/admin", 200); ("/.admin.swp", 404); ("/admin~", 404);
      ("/admin.bak", 404); ("/admin.orig", 404); ("/admin.php", 404) ].
Proof. reflexivity. Qed.

(** Redirect interception: [/old] is reported with its target, the
    target is enqueued, and no error reaches the results channel. *)
Example scenario_redirect :
  events (TryURL (at_ "/old") demoWorker)
  = [ EvRequest (at_ "/old");
      EvAdd (at_ "/new");
      EvResult {| results.URL := at_ "/old"; results.Code := 301;
                  results.Error := None; results.Redir := Some (at_ "/new");
                  results.Length := 120 |};
      EvClose 3%nat ].
Proof. reflexivity. Qed.

(** A URL that carries an extension gets its mangle attempts and no
    extension attempt. *)
Example scenario_extension :
  map url.Path (requests (events (HandleURL (at_ "/doc.txt") demoWorker)))
  = [ "/doc.txt"; "/.doc.txt.swp"; "/doc.txt~"; "/doc.txt.bak"; "/doc.txt.orig" ].
Proof. reflexivity. Qed.

(** With a page worker attached, an eligible response is handed to it
    between the enqueues and the Result Record. *)
Example scenario_page_worker :
  events (TryURL (at_ "/dir/") (SetPageWorker NewHTMLWorker demoWorker))
  = [ EvRequest (at_ "/dir/");
      EvAdd (at_ "/dir/");
      EvHandle (at_ "/dir/") 2%nat;
      EvResult {| results.URL := at_ "/dir/"; results.Code := 200;
                  results.Error := None; results.Redir := None;
                  results.Length := 120 |};
      EvClose 2%nat ].
Proof. reflexivity. Qed.

(** Outside the transport's promise: a redirect captured and no response
    returned.  The deferred close dereferences nil, [HandleURL] does not
    get to [done]. *)
Example rogue_transport_panics :
  outcome (HandleURL (at_ "/old") rogueWorker)
    = Panicked "invalid memory address or nil pointer dereference" /\
  events (HandleURL (at_ "/old") rogueWorker) = [EvRequest (at_ "/old")].
Proof. split; reflexivity. Qed.

(* ------------------------------------------------------------------ *)
(** ** More concrete runs *)
(* ------------------------------------------------------------------ *)

#[local] Existing Instance Static_Client.
#[local] Existing Instance Counter_Factory.


Lemma HandleURL_directory_one_request_witness :
  requests (events (HandleURL (at_ "/dir/") demoWorker)) = [at_ "/dir/"] /\
  (length (emitted (events (HandleURL (at_ "/dir/") demoWorker))) <= 1)%nat.
Proof.
  apply (HandleURL_directory_one_request demoWorker (at_ "/dir/")). reflexivity.
Defined.

Lemma HandleURL_variants_derived_witness :
  exists rest,
    requests (events (HandleURL (at_ "/admin") demoWorker)) = at_ "/admin" :: rest /\
    Forall (derived (at_ "/admin")) rest.
Proof.
  refine (HandleURL_variants_derived (ext := dotAfterSlash) _ demoWorker (at_ "/admin")).
  intros c u. unfold client.RequestURL, Site_Client. cbn [snd].
  destruct (lookupPage (url.Path u) (pages c)) as [r|r q|[r|] e]; reflexivity.
Defined.

Lemma HandleURL_without_mangling_witness :
  requests (events (HandleURL (at_ "/admin") plainWorker)) = [at_ "/admin"].
Proof.
  refine (HandleURL_without_mangling (ext := dotAfterSlash) _ plainWorker
            (at_ "/admin") _).
  - intros c u. unfold client.RequestURL, Site_Client. cbn [snd].
    destruct (lookupPage (url.Path u) (pages c)) as [r|r q|[r|] e]; reflexivity.
  - left. reflexivity.
Defined.

Lemma HandleURL_repeatable_witness :
  (outcome (HandleURL (at_ "/admin") staticWorker)
     = outcome (HandleURL (at_ "/admin")
                  (setRedir (Some {| http.URL := at_ "/stale" |}) staticWorker)) /\
   events (HandleURL (at_ "/admin") staticWorker)
     = events (HandleURL (at_ "/admin")
                 (setRedir (Some {| http.URL := at_ "/stale" |}) staticWorker))) /\
  events (HandleURL (at_ "/admin") (final (HandleURL (at_ "/admin") staticWorker)))
    = events (HandleURL (at_ "/admin") staticWorker).
Proof.
  assert (HS : Stateless Static) by (intros c c' u; reflexivity).
  split.
  - apply (proj1 (HandleURL_repeatable (ext := dotAfterSlash) HS (at_ "/admin")));
      reflexivity.
  - apply (proj2 (HandleURL_repeatable (ext := dotAfterSlash) HS (at_ "/admin"))).
Defined.

Lemma Mangle_candidates_distinct_witness :
  NoDup (Mangle "config") /\
  ~ In "config" (Mangle "config") /\
  Forall (fun n => strings.ContainsByte n "/" = false) (Mangle "config").
Proof.
  destruct (Mangle_candidates_distinct "config") as (H1 & H2 & H3).
  split; [exact H1|]. split; [exact H2|]. apply H3. reflexivity.
Defined.

Lemma path_split_lossless_witness :
  0 <= strings.LastIndexByte "/etc/config" "/" < strings.len "/etc/config" /\
  (strings.slice "/etc/config" 0 (strings.LastIndexByte "/etc/config" "/") ++ "/"
     ++ strings.slice "/etc/config" (strings.LastIndexByte "/etc/config" "/" + 1)
          (strings.len "/etc/config"))%string
    = "/etc/config" /\
  strings.ContainsByte
    (strings.slice "/etc/config" (strings.LastIndexByte "/etc/config" "/" + 1)
       (strings.len "/etc/config")) "/" = false.
Proof.
  apply (proj2 (path_split_lossless "/etc/config")).
  vm_compute. discriminate.
Defined.


(** A pool of four on the counting factory: the workers sit on the
    transports numbered 0 to 3. *)
Example pool_of_four :
  match fst (StartWorkers demoSettings NewHTMLWorker 0%nat) with
  | Returned ws => map (fun w => served (client w)) ws = [0; 1; 2; 3]%nat
  | Panicked _ => False
  end.
Proof. reflexivity. Qed.

(** A worker that is stopped before the source delivers anything makes
    no call at all. *)
Example stopped_at_once :
  Run [SelStop; SelTask (at_ "/admin")] demoWorker
  = (Returned Stopped, demoWorker, []).
Proof. reflexivity. Qed.

Lemma HandleURL_enqueues_justified_witness :
  (strings.HasSuffixByte "/dir/" "/" = true /\
   exists r, In r (emitted (events (HandleURL (at_ "/dir/") demoWorker))) /\
             results.URL r = at_ "/dir/" /\ results.Error r = None /\
             In (results.Code r) [200])
  \/
  (exists r, In r (emitted (events (HandleURL (at_ "/dir/") demoWorker))) /\
             results.Redir r = Some (at_ "/dir/")).
Proof.
  refine (HandleURL_enqueues_justified (ext := dotAfterSlash) demoWorker
            (at_ "/dir/") (at_ "/dir/") _).
  simpl. left. reflexivity.
Defined.
